(** * Verification notes for the decision-tree and out-of-core notebooks

    The development embeds the two hand-written functions of the notebooks,
    [info_gain] (2b-Decision-Trees-and-Random-Forests) and [batch_train]
    (5b-Big-Data-Strategies), together with the ID3 procedure that the first
    notebook gives as pseudocode.

    Conventions of the embedding:
    - Python floats and numpy float arrays are idealised as real numbers
      ([R] of the Standard Library); counts held in float arrays are exact
      naturals injected by [INR].
    - A pandas [DataFrame] is a row count together with a finite map from
      column names to columns; a pandas [Series] with the default index is
      a list addressed by position.
    - Values of a column and labels are compared with [==], taken to be
      a decidable equality; a frame holding NaN entries, which are not
      equal to themselves, is outside the embedding.
    - Python exceptions are values of [exn], threaded by a small error
      monad. *)

From Stdlib Require Import Reals Lra Lia ZArith.
From stdpp Require Import base option list gmap strings sorting.

(** ** Exceptions and the error monad *)

Inductive exn : Type :=
  | KeyError
  | IndexError
  | ZeroDivisionError
  | IOError
  | EmptyInputError
  | InconsistentSchemaError
  | OutOfFuel.

Inductive result (A : Type) : Type :=
  | Ok (a : A)
  | Raise (e : exn).

Arguments Ok {A} a.
Arguments Raise {A} e.

#[global] Instance result_ret : MRet result := λ A a, Ok a.

#[global] Instance result_bind : MBind result := λ A B k m,
  match m with
  | Ok a => k a
  | Raise e => Raise e
  end.

Definition is_Ok {A : Type} (m : result A) : Prop := ∃ a, m = Ok a.

(** ** Real-valued helpers standing for numpy and scipy *)

Module Numeric.

Local Open Scope R_scope.

(** [np.sum] of a one-dimensional float array. *)
Fixpoint np_sum (xs : list R) : R :=
  match xs with
  | [] => 0
  | x :: xs' => x + np_sum xs'
  end.

(** [scipy.special.entr]: [-x*log(x)] for [x > 0] and [0] at [x = 0].
    For [x < 0] scipy yields minus infinity, which has no real
    counterpart; the embedding gives [0] there, and [info_gain] never
    reaches that case because it only passes ratios of counts. *)
Definition entr (x : R) : R :=
  if Rlt_dec 0 x then - x * ln x else 0.

(** Modelled from the spec: [entropy] is [scipy.stats.entropy], which the
    notebook imports and the repository does not define.  Section 4.1
    gives its contract on a probability vector: minus the sum of
    [p * log p] over the classes with [p > 0], a class with [p = 0]
    contributing 0.  The library first normalises [pk] to sum to one, and
    it takes logarithms to base [base] when one is passed, as in the
    notebook's [entropy([.4, .6], base=2)], and natural logarithms
    otherwise, as in the call inside [info_gain]. *)
Definition entropy (pk : list R) (base : option R) : R :=
  let s := np_sum pk in
  let pk' := map (λ p, p / s) pk in
  let S := np_sum (map entr pk') in
  match base with
  | None => S
  | Some b => S / ln b
  end.

End Numeric.

Export Numeric.

(** ** pandas data model *)

Section Evaluator.

Context {V L : Type} `{EqDecision V, EqDecision L}.

(** A DataFrame: [len(X)] is [nrows], [X[name]] looks a column up. *)
Record DataFrame : Type := mkDataFrame {
  nrows : nat;
  columns : gmap string (list V)
}.

(** [X[feature]], raising [KeyError] for an absent column. *)
Definition getcol (X : DataFrame) (feature : string) : result (list V) :=
  match columns X !! feature with
  | Some col => Ok col
  | None => Raise KeyError
  end.

(** [y[i]] on a Series with the default integer index. *)
Definition getitem (y : list L) (i : nat) : result L :=
  match y !! i with
  | Some l => Ok l
  | None => Raise KeyError
  end.

(** [list(set(xs))]: the distinct elements of [xs], each once.  Python
    leaves the order unspecified; the embedding fixes one, and over the
    reals the sum that [info_gain] accumulates does not depend on it. *)
Definition py_set {A : Type} `{EqDecision A} (xs : list A) : list A :=
  remove_dups xs.

(** [[y[i] for i, d in enumerate(col) if d == value]], with [i] counted
    from [start]. *)
Fixpoint select_labels (start : nat) (col : list V) (y : list L) (value : V)
  : result (list L) :=
  match col with
  | [] => Ok []
  | d :: col' =>
      if decide (d = value) then
        yi ← getitem y start;
        rest ← select_labels (S start) col' y value;
        Ok (yi :: rest)
      else select_labels (S start) col' y value
  end.

(** The inner [for c in new_y: if c == v: class_counts[iclass] += 1]. *)
Fixpoint count_class (v : L) (new_y : list L) : nat :=
  match new_y with
  | [] => 0
  | c :: rest => if decide (c = v) then S (count_class v rest)
                 else count_class v rest
  end.

(** [class_counts] after the loop over [class_values]. *)
Definition class_counts (new_y : list L) : list R :=
  map (λ v, INR (count_class v new_y)) (py_set new_y).

(** The entropy that [info_gain] computes for one label list: class
    counts, their total [nc], the ratios, and [entropy] of the ratios.
    [info_gain] itself calls it with [base = None]. *)
Definition label_entropy (base : option R) (new_y : list L) : R :=
  let cc := class_counts new_y in
  let nc := np_sum cc in
  entropy (map (λ c, (c / nc)%R) cc) base.

(** [float(a) / n] for a Python integer [n]. *)
Definition py_div (a : R) (n : nat) : result R :=
  match n with
  | O => Raise ZeroDivisionError
  | S _ => Ok (a / INR n)%R
  end.

(** The body of [for value in values], threading [gain]. *)
Fixpoint gain_loop (n : nat) (col : list V) (y : list L)
    (values : list V) (gain : R) : result R :=
  match values with
  | [] => Ok gain
  | value :: rest =>
      new_y ← select_labels 0 col y value;
      let feature_count := INR (length new_y) in
      let E := label_entropy None new_y in
      w ← py_div feature_count n;
      gain_loop n col y rest (gain + w * E)%R
  end.

Definition info_gain (X : DataFrame) (y : list L) (feature : string)
  : result R :=
  let n := nrows X in
  col ← getcol X feature;
  gain_loop n col y (py_set col) 0%R.

(** What pandas guarantees of a frame and of the label column popped from
    it: every column has [len(X)] entries, and so has [y]. *)
Definition well_formed (X : DataFrame) (y : list L) : Prop :=
  (∀ f col, columns X !! f = Some col → length col = nrows X) ∧
  length y = nrows X.

End Evaluator.

Arguments DataFrame V : clear implicits.

(** ** Information gain as the notebook's text and the specification state it

    These definitions follow the words of the specification, not the code:
    the entropy of a label sequence is [-Σ p·log2 p] over its classes, and
    the gain of a feature is the entropy of [S] minus the size-weighted
    entropies of the partitions [S_x]. *)

Section SpecGain.

Context {V L : Type} `{EqDecision V, EqDecision L}.

Local Open Scope R_scope.

Definition log2R (x : R) : R := ln x / ln 2.

(** The rows of [S_x]: the entries of [y] at the positions where the
    column equals [x]. *)
Fixpoint rows_with {A : Type} (x : V) (col : list V) (y : list A) : list A :=
  match col, y with
  | d :: col', l :: y' =>
      if decide (d = x) then l :: rows_with x col' y'
      else rows_with x col' y'
  | _, _ => []
  end.

Definition spec_entropy (ys : list L) : R :=
  - np_sum (map (λ c, let p := INR (count_class c ys) / INR (length ys) in
                      if Rlt_dec 0 p then p * log2R p else 0)
                (py_set ys)).

Definition spec_info_gain (col : list V) (y : list L) : R :=
  spec_entropy y
  - np_sum (map (λ x, let Sx := rows_with x col y in
                      INR (length Sx) / INR (length col) * spec_entropy Sx)
                (py_set col)).

End SpecGain.

(** ** The ID3 tree builder

    The notebook gives ID3 only as pseudocode; the builder below follows
    that pseudocode and section 4.2 of the specification.  The gain
    function it maximises is a parameter, so that results about the
    builder hold for [info_gain] as coded and for any other criterion. *)

Section TreeBuilder.

Context {V L : Type} `{EqDecision V, EqDecision L}.

(** Modelled from the spec: a tree node is a leaf with its predicted
    label, or an internal node with its splitting feature and one child
    per observed value of that feature. *)
#[warnings="-register-all"]
Inductive tree : Type :=
  | Leaf (label : L)
  | Internal (feature : string) (children : list (V * tree)).

Variable gain : DataFrame V → list L → string → result R.

(** Modelled from the spec: the most common label of a non-empty subset.
    Ties go to the label met first in the subset; [best] starts as its
    first label. *)
Fixpoint most_common (all rest : list L) (best : L) : L :=
  match rest with
  | [] => best
  | c :: rest' =>
      most_common all rest'
        (if decide (count_class best all < count_class c all) then c
         else best)
  end.

(** Modelled from the spec: a linear scan for the feature of largest gain,
    the earliest candidate winning ties. *)
Fixpoint best_feature (X : DataFrame V) (y : list L) (feats : list string)
    (best : string) (best_gain : R) : result string :=
  match feats with
  | [] => Ok best
  | f :: rest =>
      g ← gain X y f;
      if Rlt_dec best_gain g then best_feature X y rest f g
      else best_feature X y rest best best_gain
  end.

(** Modelled from the spec: the arg-max over a non-empty candidate list,
    started from its first feature. *)
Definition choose_feature (X : DataFrame V) (y : list L)
    (feats : list string) : result string :=
  match feats with
  | [] => Raise InconsistentSchemaError
  | f :: rest => g ← gain X y f; best_feature X y rest f g
  end.

(** Modelled from the spec: the sub-subset of the examples whose value of
    [feature] is [v]; a frame without that column is an inconsistent
    schema. *)
Definition subset (X : DataFrame V) (y : list L) (feature : string) (v : V)
  : result (DataFrame V * list L) :=
  match columns X !! feature with
  | None => Raise InconsistentSchemaError
  | Some col =>
      Ok (mkDataFrame (length (rows_with v col col))
                      (rows_with v col <$> columns X),
          rows_with v col y)
  end.

(** Modelled from the spec: ID3 with its three outcomes in priority order,
    pure-label leaf, majority leaf when no candidate feature remains, and
    a split on the feature of largest gain that recurses on every observed
    value with that feature removed from the candidates.  [fuel] bounds the
    depth of the recursion. *)
Fixpoint ID3_rec (fuel : nat) (X : DataFrame V) (y : list L)
    (feats : list string) : result tree :=
  match y with
  | [] => Raise EmptyInputError
  | l0 :: _ =>
      if decide (Forall (λ c, c = l0) y) then Ok (Leaf l0)
      else
        match feats, fuel with
        | [], _ => Ok (Leaf (most_common y y l0))
        | _ :: _, O => Raise OutOfFuel
        | _ :: _, S fuel' =>
            xstar ← choose_feature X y feats;
            col ← match columns X !! xstar with
                  | Some col => Ok col
                  | None => Raise InconsistentSchemaError
                  end;
            children ← mapM (λ v,
                          '(Xv, yv) ← subset X y xstar v;
                          child ← ID3_rec fuel' Xv yv
                                    (filter (λ f, f ≠ xstar) feats);
                          Ok (v, child))
                        (py_set col);
            Ok (Internal xstar children)
        end
  end.

(** Modelled from the spec: the builder called on a dataset and its
    initial feature set.  Every split consumes one candidate, so as many
    steps as there are candidates suffice. *)
Definition ID3 (X : DataFrame V) (y : list L) (feats : list string)
  : result tree :=
  ID3_rec (length feats) X y feats.

(** The splitting features met on each root-to-leaf path of a tree, from
    the root down. *)
Fixpoint paths (t : tree) : list (list string) :=
  match t with
  | Leaf _ => [[]]
  | Internal f children =>
      map (cons f) (flat_map (λ vc, paths vc.2) children)
  end.

(** The labels predicted at the leaves of a tree, from left to right. *)
Fixpoint leaves (t : tree) : list L :=
  match t with
  | Leaf l => [l]
  | Internal _ children => flat_map (λ vc, leaves vc.2) children
  end.

End TreeBuilder.

Arguments tree V L : clear implicits.
Arguments Leaf {V L} label.
Arguments Internal {V L} feature children.

(** ** Concrete datasets used by the examples *)

Module Titanic.

(** The worked example of the notebook: four survival events and a
    variable [X] with values [x1], [x2], [x3]. *)
Inductive outcome : Type := survived | died.

#[global] Instance outcome_eq_dec : EqDecision outcome.
Proof. solve_decision. Defined.

Definition S_X : DataFrame string :=
  mkDataFrame 4 {[ "X" := ["x2"; "x2"; "x3"; "x1"] ]}.

Definition S_y : list outcome := [survived; died; died; died].

(** Two rows with the same feature value and different labels. *)
Definition mixed_X : DataFrame string :=
  mkDataFrame 2 {[ "f" := ["a"; "a"] ]}.

Definition mixed_y : list outcome := [survived; died].

(** The same column next to another one. *)
Definition mixed_X' : DataFrame string :=
  mkDataFrame 2 {[ "f" := ["a"; "a"]; "g" := ["u"; "w"] ]}.

(** No rows, one (empty) column. *)
Definition empty_X : DataFrame string := mkDataFrame 0 {[ "f" := [] ]}.

(** The tree that splits on ["f"] and then on ["g"]. *)
Definition mixed_tree : tree string outcome :=
  Internal "f" [("a", Internal "g" [("u", Leaf survived); ("w", Leaf died)])].

End Titanic.

(** ** Out-of-core training: [batch_train]

    Estimators are Python objects, so the embedding keeps them in a heap
    indexed by references and passes the reference, as Python does.  The
    world also records, in order, every library call that can touch an
    estimator. *)

Module BatchTrain.

Definition loc : Type := positive.

Inductive event : Type :=
  | EvClone (src new : loc)
  | EvPartialFit (self : loc).

#[global] Instance event_eq_dec : EqDecision event.
Proof. solve_decision. Defined.

Section Model.

(** What the libraries provide: the estimator objects of scikit-learn with
    [clone] and [partial_fit], the hashing vectorizer, numpy's random
    state, and the files on disk. *)
Context {Est Batch Rng : Type}.
Variable clone_est : Est → Est.
Variable partial_fit_est : Est → Batch → list nat → list nat → Est * option exn.
Variable transform : list string → Batch.
Variable RandomState : nat → Rng.
Variable choice : Rng → list nat → nat → result (list nat * Rng).
Variable files : gmap string string.

Record world : Type := mkWorld {
  heap : gmap loc Est;
  trace : list event
}.

(** Computations that read and update the world and may raise. *)
Definition M (A : Type) : Type := world → result A * world.

#[global] Instance M_ret : MRet M := λ A a w, (Ok a, w).

#[global] Instance M_bind : MBind M := λ A B k m w,
  match m w with
  | (Ok a, w') => k a w'
  | (Raise e, w') => (Raise e, w')
  end.

(** A computation that cannot touch the world. *)
Definition lift {A : Type} (r : result A) : M A := λ w, (r, w).

(** [sklearn.base.clone(src)]: a new object built from the parameters of
    the estimator at [src]; [src] itself is only read. *)
Definition clone (src : loc) : M loc := λ w,
  match heap w !! src with
  | None => (Raise KeyError, w)
  | Some est =>
      let new := fresh (dom (heap w)) in
      (Ok new, mkWorld (<[new := clone_est est]> (heap w))
                       (trace w ++ [EvClone src new]))
  end.

(** [self.partial_fit(X, y, classes)]: updates the receiver in place. *)
Definition partial_fit (self : loc) (X : Batch) (y classes : list nat)
  : M () := λ w,
  match heap w !! self with
  | None => (Raise KeyError, w)
  | Some est =>
      let '(est', err) := partial_fit_est est X y classes in
      (match err with None => Ok () | Some e => Raise e end,
       mkWorld (<[self := est']> (heap w)) (trace w ++ [EvPartialFit self]))
  end.

(** [open(fnames[i], 'r').read()]. *)
Definition read_document (fnames : list string) (i : nat) : result string :=
  match fnames !! i with
  | None => Raise IndexError
  | Some name =>
      match files !! name with
      | None => Raise IOError
      | Some text => Ok text
      end
  end.

(** [labels[rnd_idx]], numpy indexing with an array of positions. *)
Definition take_labels (labels : list nat) (rnd_idx : list nat)
  : result (list nat) :=
  mapM (λ i, match labels !! i with
             | None => Raise IndexError
             | Some l => Ok l
             end) rnd_idx.

(** The body of [for i in range(iterations)], run [iterations] times.
    The inner loop variable, also called [i], does not affect the
    iteration count. *)
Fixpoint train_loop (iterations : nat) (c_clf : loc) (rng : Rng)
    (idx : list nat) (fnames : list string) (labels : list nat)
    (batchsize : nat) : M () :=
  match iterations with
  | O => mret ()
  | S iterations' =>
      '(rnd_idx, rng') ← lift (choice rng idx batchsize);
      documents ← lift (mapM (read_document fnames) rnd_idx);
      batch_labels ← lift (take_labels labels rnd_idx);
      let X_batch := transform documents in
      _ ← partial_fit c_clf X_batch batch_labels [0; 1];
      train_loop iterations' c_clf rng' idx fnames labels batchsize
  end.

(** [batch_train(clf, fnames, labels, iterations, batchsize, random_seed)].
    The vectorizer [vec] keeps no state, so only its [transform] appears;
    [idx] is [np.arange(labels.shape[0])]. *)
Definition batch_train (clf : loc) (fnames : list string) (labels : list nat)
    (iterations batchsize random_seed : nat) : M loc :=
  let idx := seq 0 (length labels) in
  c_clf ← clone clf;
  let rng := RandomState random_seed in
  _ ← train_loop iterations c_clf rng idx fnames labels batchsize;
  mret c_clf.

(** The call with the default arguments of the definition. *)
Definition batch_train_default (clf : loc) (fnames : list string)
    (labels : list nat) : M loc :=
  batch_train clf fnames labels 25 1000 1.

End Model.

End BatchTrain.

(** A small concrete instance: the estimator state counts the calls of
    [partial_fit] it has received, [clone] resets the count, and the random
    state hands out the first [size] positions. *)
Module BatchTrainExample.

Import BatchTrain.

Definition clone_est (est : nat) : nat := 0.

Definition partial_fit_est (est : nat) (X : list string) (y classes : list nat)
  : nat * option exn := (S est, None).

Definition transform (documents : list string) : list string := documents.

Definition RandomState (seed : nat) : nat := seed.

Definition choice (rng : nat) (idx : list nat) (size : nat)
  : result (list nat * nat) := Ok (take size idx, S rng).

Definition files : gmap string string :=
  {[ "pos/0.txt" := "a fine film"; "neg/0.txt" := "a dull film" ]}.

Definition fnames : list string := ["pos/0.txt"; "neg/0.txt"].

Definition labels : list nat := [1; 0].

(** The caller's classifier lives at reference 1 and has seen 7 batches. *)
Definition sgd : loc := 1%positive.

Definition w0 : world (Est := nat) := mkWorld {[ sgd := 7 ]} [].

Definition run : result loc * world (Est := nat) :=
  batch_train clone_est partial_fit_est transform RandomState choice files
    sgd fnames labels 3 2 1 w0.

End BatchTrainExample.

(** ** The Gini index of the notebook *)

Section Impurity.

Local Open Scope R_scope.


End Impurity.

(** ** Hand-made regression tree on the diabetes data

    The first cells of the tree notebook split the plane of the two
    predictors [ltg] and [bmi] by hand and average the response in the
    three resulting regions. *)

Section Regions.

(** [a[i]] on a sequence, for a position [i] that may be out of range. *)
Definition getidx {A : Type} (xs : list A) (i : nat) : result A :=
  match xs !! i with
  | Some x => Ok x
  | None => Raise IndexError
  end.

(** [data[:, j]]: the [j]-th entry of every row. *)
Definition column (data : list (list R)) (j : nat) : result (list R) :=
  mapM (λ row, getidx row j) data.

(** The thresholds [bmi_split = -0.03] and [ltg_split = -0.01]; the cells
    compare the data with the floating-point values of these literals. *)
Variables (bmi_split ltg_split : R).

(** Element-wise comparisons of an array with a scalar. *)
Definition gt_mask (xs : list R) (t : R) : list bool :=
  map (λ x, if Rlt_dec t x then true else false) xs.

Definition le_mask (xs : list R) (t : R) : list bool :=
  map (λ x, if Rle_dec x t then true else false) xs.

Definition lt_mask (xs : list R) (t : R) : list bool :=
  map (λ x, if Rlt_dec x t then true else false) xs.

(** [xs == t], which no cell of the notebook evaluates; it names the
    entries that none of the three comparisons above accepts. *)
Definition eq_mask (xs : list R) (t : R) : list bool :=
  map (λ x, if Req_dec_T x t then true else false) xs.

(** [a & b] on two boolean arrays of one length. *)
Definition and_mask (a b : list bool) : list bool := zip_with andb a b.

(** The entries of [ys] at the positions where the mask holds. *)
Fixpoint masked {A : Type} (ys : list A) (mask : list bool) : list A :=
  match ys, mask with
  | y :: ys', b :: mask' =>
      if b then y :: masked ys' mask' else masked ys' mask'
  | _, _ => []
  end.

(** [y[mask]]: numpy refuses a boolean index of another length. *)
Definition bool_index {A : Type} (ys : list A) (mask : list bool)
  : result (list A) :=
  if decide (length mask = length ys) then Ok (masked ys mask)
  else Raise IndexError.

(** [np.mean]; the mean of an empty selection is [nan], rendered [None]. *)
Definition np_mean (xs : list R) : option R :=
  match xs with
  | [] => None
  | _ :: _ => Some (np_sum xs / INR (length xs))%R
  end.

(** [bmi, ltg = diabetes['data'][:, [2, 8]].T]. *)
Definition predictors (data : list (list R)) : result (list R * list R) :=
  bmi ← column data 2;
  ltg ← column data 8;
  Ok (bmi, ltg).

(** [y[(bmi > bmi_split) & (ltg > ltg_split)]]. *)
Definition region_high_bmi (data : list (list R)) (y : list R)
  : result (list R) :=
  '(bmi, ltg) ← predictors data;
  bool_index y (and_mask (gt_mask bmi bmi_split) (gt_mask ltg ltg_split)).

(** [y[(bmi <= bmi_split) & (ltg > ltg_split)]]. *)
Definition region_low_bmi (data : list (list R)) (y : list R)
  : result (list R) :=
  '(bmi, ltg) ← predictors data;
  bool_index y (and_mask (le_mask bmi bmi_split) (gt_mask ltg ltg_split)).

(** [y[ltg < ltg_split]]. *)
Definition region_low_ltg (data : list (list R)) (y : list R)
  : result (list R) :=
  '(bmi, ltg) ← predictors data;
  bool_index y (lt_mask ltg ltg_split).

(** The three cells [np.mean(y[...])]. *)
Definition region_means (data : list (list R)) (y : list R)
  : result (option R * option R * option R) :=
  high ← region_high_bmi data y;
  low ← region_low_bmi data y;
  left ← region_low_ltg data y;
  Ok (np_mean high, np_mean low, np_mean left).

End Regions.

(** ** Ranking the features of a fitted forest *)

Section FeatureRanking.

(** The order in which [np.argsort] arranges positions: by their values. *)
Definition value_le (xs : list R) (i j : nat) : Prop :=
  (nth i xs 0 <= nth j xs 0)%R.

(** [np.argsort(xs)]: the positions of [xs] in ascending order of their
    values.  numpy does not say how equal values are ordered; the merge
    sort used here fixes one order. *)
Definition argsort (xs : list R) : list nat :=
  @merge_sort nat (value_le xs) (λ i j, Rle_dec _ _) (seq 0 (length xs)).

(** The ranking cell: [indices = np.argsort(importances)[::-1]], then one
    printed line per [f in range(X.shape[1])] with [f + 1],
    [X.columns[indices[f]]] and [importances[indices[f]]]. *)
Definition feature_ranking (columns : list string) (importances : list R)
  : result (list (nat * string * R)) :=
  let indices := reverse (argsort importances) in
  mapM (λ f,
          i ← getidx indices f;
          name ← getidx columns i;
          imp ← getidx importances i;
          Ok (f + 1, name, imp))
       (seq 0 (length columns)).

End FeatureRanking.

(** ** The labels of the review files *)

Section ReviewLabels.

(** [np.zeros((n,), dtype=int)]. *)
Definition np_zeros (n : nat) : list nat := replicate n 0.

(** [a[:k] = v]: the slice stops at the end of the array. *)
Definition assign_prefix (k v : nat) (a : list nat) : list nat :=
  replicate (k `min` length a) v ++ drop k a.

(** The number of positive reviews the notebook assumes: 12500. *)
Definition n_positive : nat := 125 * 100.

(** [fnames = [pos files] + [neg files]]. *)
Definition review_files (pos neg : list string) : list string := pos ++ neg.

(** [y_train = np.zeros((len(fnames),), dtype=int); y_train[:12500] = 1]. *)
Definition make_y_train (fnames : list string) : list nat :=
  assign_prefix n_positive 1 (np_zeros (length fnames)).

(** [np.bincount(a)]: how often each of [0 .. max(a)] occurs; empty for
    an empty array. *)
Definition bincount (a : list nat) : list nat :=
  match a with
  | [] => []
  | _ :: _ =>
      map (λ v, length (filter (λ x, x = v) a)) (seq 0 (S (max_list a)))
  end.

End ReviewLabels.

(** ** More concrete data for the examples *)

Module MoreData.

Import Titanic BatchTrain BatchTrainExample.

(** A frame that reports no rows although its column has two entries. *)
Definition rowless_X : DataFrame string :=
  mkDataFrame 0 {[ "f" := ["a"; "a"] ]}.

(** A feature that separates the two labels. *)
Definition pure_X : DataFrame string :=
  mkDataFrame 4 {[ "g" := ["u"; "u"; "w"; "w"] ]}.

Definition pure_y : list outcome := [survived; survived; died; died].






(** Another caller, whose classifier lives at reference 5 and has seen 9
    batches. *)
Definition other_sgd : loc := 5%positive.

Definition other_w0 : world (Est := nat) :=
  mkWorld {[ other_sgd := 9; 2%positive := 4 ]} [EvPartialFit other_sgd].

Definition other_run : result loc * world (Est := nat) :=
  batch_train clone_est partial_fit_est transform RandomState choice files
    other_sgd fnames labels 3 2 1 other_w0.

(** Three rows of a table with nine predictors, and their responses. *)
Definition small_data : list (list R) :=
  [ [0; 0; 1; 0; 0; 0; 0; 0; 1];
    [0; 0; -1; 0; 0; 0; 0; 0; 1];
    [0; 0; 1; 0; 0; 0; 0; 0; -1] ]%R.

Definition small_y : list R := [151; 75; 141]%R.

(** Two columns and their importances. *)
Definition two_columns : list string := ["Alcohol"; "Hue"].

Definition two_importances : list R := [3 / 10; 7 / 10]%R.

(** One file more than the notebook's 12500 positive reviews. *)
Definition many_files : list string := replicate (125 * 100 + 1) "review.txt".

End MoreData.

(** * Proofs *)

(** ** Facts about the numeric helpers *)

Section NumericFacts.

Local Open Scope R_scope.


Lemma entr_1 : entr 1 = 0.
Proof. unfold entr. destruct (Rlt_dec 0 1); [rewrite ln_1; lra | reflexivity]. Qed.

Lemma entr_pos (x : R) : 0 < x → entr x = - x * ln x.
Proof. intros Hx. unfold entr. destruct (Rlt_dec 0 x); [reflexivity | lra]. Qed.

Lemma ln_nonpos (x : R) : 0 < x → x <= 1 → ln x <= 0.
Proof.
  intros Hx [Hlt | ->].
  - rewrite <- ln_1. left. apply ln_increasing; assumption.
  - rewrite ln_1. lra.
Qed.

Lemma entr_nonneg (x : R) : x <= 1 → 0 <= entr x.
Proof.
  intros Hx. unfold entr. destruct (Rlt_dec 0 x) as [Hpos | _]; [| lra].
  pose proof (ln_nonpos x Hpos Hx). nra.
Qed.

Lemma np_sum_nonneg (xs : list R) :
  Forall (λ x, 0 <= x) xs → 0 <= np_sum xs.
Proof. induction 1; simpl; lra. Qed.

Lemma np_sum_ge_elem (xs : list R) (x : R) :
  Forall (λ x, 0 <= x) xs → x ∈ xs → x <= np_sum xs.
Proof.
  induction 1 as [| z zs Hz Hzs IH]; intros Hin.
  - inversion Hin.
  - apply elem_of_cons in Hin as [-> | Hin]; simpl.
    + pose proof (np_sum_nonneg zs Hzs). lra.
    + specialize (IH Hin). lra.
Qed.

Lemma Rinv_nonneg (x : R) : 0 <= x → 0 <= / x.
Proof.
  intros [Hx | <-].
  - left. apply Rinv_0_lt_compat. exact Hx.
  - rewrite Rinv_0. lra.
Qed.

Lemma ratio_le_1 (x s : R) : 0 <= x → x <= s → x / s <= 1.
Proof.
  intros Hx Hxs. destruct (Req_dec s 0) as [-> | Hs].
  - unfold Rdiv. rewrite Rinv_0. lra.
  - assert (0 < s) by lra. apply (Rmult_le_reg_r s); [assumption |].
    unfold Rdiv. rewrite Rmult_assoc, Rinv_l by assumption. lra.
Qed.

(** With the natural logarithm (no [base]) the entropy of any array of
    non-negative numbers is non-negative. *)
Lemma entropy_nonneg (pk : list R) :
  Forall (λ p, 0 <= p) pk → 0 <= entropy pk None.
Proof.
  intros Hpk. unfold entropy. apply np_sum_nonneg.
  rewrite Forall_map, Forall_map. rewrite Forall_forall in *.
  intros p Hp. simpl. apply entr_nonneg, ratio_le_1; [auto |].
  apply np_sum_ge_elem; [| exact Hp]. rewrite Forall_forall. exact Hpk.
Qed.

Lemma entropy_singleton_1 (base : option R) : entropy [1] base = 0.
Proof.
  unfold entropy. simpl.
  replace (1 / (1 + 0)) with 1 by (field).
  rewrite entr_1. destruct base; unfold Rdiv; lra.
Qed.

End NumericFacts.

(** ** Facts about the information-gain evaluator *)

Section EvaluatorFacts.

Context {V L : Type} `{EqDecision V, EqDecision L}.

Local Open Scope R_scope.

Lemma count_class_all (l : L) (ys : list L) :
  Forall (λ c, c = l) ys → count_class l ys = length ys.
Proof.
  induction 1 as [| c ys -> _ IH]; simpl; [reflexivity |].
  rewrite decide_True by reflexivity. now rewrite IH.
Qed.

Lemma py_set_all {A : Type} `{EqDecision A} (l : A) (ys : list A) :
  Forall (λ c, c = l) ys → ys ≠ [] → py_set ys = [l].
Proof.
  unfold py_set. induction 1 as [| c ys -> Hys IH]; intros Hne; [done |].
  destruct ys as [| c' ys']; [reflexivity |].
  change (remove_dups (l :: c' :: ys'))
    with (if decide_rel (∈) l (c' :: ys') then remove_dups (c' :: ys')
          else l :: remove_dups (c' :: ys')).
  destruct (decide_rel (∈) l (c' :: ys')) as [_ | Hnin].
  - apply IH. discriminate.
  - exfalso. apply Hnin. inversion Hys; subst. apply list_elem_of_here.
Qed.

Lemma class_counts_nonneg (new_y : list L) :
  Forall (λ c, 0 <= c) (class_counts new_y).
Proof.
  unfold class_counts. rewrite Forall_map. apply Forall_forall.
  intros v _. simpl. apply pos_INR.
Qed.

Lemma label_entropy_nonneg (new_y : list L) :
  0 <= label_entropy None new_y.
Proof.
  unfold label_entropy. apply entropy_nonneg.
  rewrite Forall_map. pose proof (class_counts_nonneg new_y) as Hcc.
  pose proof (np_sum_nonneg _ Hcc) as Hnc.
  eapply Forall_impl; [exact Hcc |]. intros c Hc. simpl.
  unfold Rdiv. apply Rmult_le_pos; [exact Hc | apply Rinv_nonneg, Hnc].
Qed.

Lemma label_entropy_single_class (base : option R) (l : L) (new_y : list L) :
  new_y ≠ [] → Forall (λ c, c = l) new_y → label_entropy base new_y = 0.
Proof.
  intros Hne Hall. unfold label_entropy, class_counts.
  rewrite (py_set_all l) by assumption. simpl.
  rewrite count_class_all by assumption.
  assert (Hlen : INR (length new_y) <> 0).
  { apply not_0_INR. destruct new_y; [done | discriminate]. }
  replace (INR (length new_y) / (INR (length new_y) + 0)) with 1
    by (field; lra).
  apply entropy_singleton_1.
Qed.

(** [select_labels] succeeds as soon as [y] has a label for every row
    of the column. *)
Lemma select_labels_ok (col : list V) (y : list L) (value : V) (start : nat) :
  (start + length col <= length y)%nat →
  ∃ new_y, select_labels start col y value = Ok new_y.
Proof.
  revert start. induction col as [| d col IH]; intros start Hlen; simpl.
  - eauto.
  - simpl in Hlen. destruct (IH (S start)) as [rest Hrest]; [lia |].
    destruct (decide (d = value)); [| eauto].
    unfold getitem. destruct (lookup_lt_is_Some_2 y start) as [yi ->]; [lia |].
    simpl. rewrite Hrest. simpl. eauto.
Qed.

Lemma py_div_nonneg (a w : R) (n : nat) :
  py_div a n = Ok w → 0 <= a → 0 <= w.
Proof.
  destruct n as [| n']; [discriminate |]. unfold py_div.
  intros [= <-] Ha. unfold Rdiv. apply Rmult_le_pos; [exact Ha |].
  left. apply Rinv_0_lt_compat, (lt_0_INR (S n')). lia.
Qed.

Lemma gain_loop_nonneg (n : nat) (col : list V) (y : list L)
    (values : list V) (gain r : R) :
  gain_loop n col y values gain = Ok r → 0 <= gain → 0 <= r.
Proof.
  revert gain. induction values as [| value rest IH]; intros gain Hrun Hg.
  - simpl in Hrun. congruence.
  - cbn [gain_loop] in Hrun.
    destruct (select_labels 0 col y value) as [new_y |]; [| discriminate].
    cbn [mbind result_bind] in Hrun.
    destruct (py_div (INR (length new_y)) n) as [w |] eqn:Hw; [| discriminate].
    eapply IH; [exact Hrun |].
    pose proof (label_entropy_nonneg new_y) as HE.
    pose proof (py_div_nonneg _ _ _ Hw (pos_INR _)) as Hw0.
    nra.
Qed.

Lemma gain_loop_ok (n : nat) (col : list V) (y : list L)
    (values : list V) (gain : R) :
  (0 < n)%nat → (length col <= length y)%nat →
  ∃ r, gain_loop n col y values gain = Ok r.
Proof.
  intros Hn Hlen. revert gain.
  induction values as [| value rest IH]; intros gain; simpl; [eauto |].
  destruct (select_labels_ok col y value 0) as [new_y ->]; [lia |].
  simpl. destruct n as [| n']; [lia |]. simpl. apply IH.
Qed.

(** Only the looked-up column and the row count of the frame are used. *)
Lemma info_gain_agree (X1 X2 : DataFrame V) (y : list L) (feature : string) :
  columns X1 !! feature = columns X2 !! feature →
  nrows X1 = nrows X2 →
  info_gain X1 y feature = info_gain X2 y feature.
Proof.
  intros Hcol Hn. unfold info_gain, getcol. rewrite Hcol, Hn. reflexivity.
Qed.

(** With no rows to look at the loop body never runs. *)
Lemma info_gain_no_rows (X : DataFrame V) (y : list L) (feature : string) :
  columns X !! feature = Some [] → info_gain X y feature = Ok 0.
Proof. intros Hcol. unfold info_gain, getcol. rewrite Hcol. reflexivity. Qed.

End EvaluatorFacts.

(** ** Claims about the evaluator *)

Section EvaluatorClaims.

Context {V L : Type} `{EqDecision V, EqDecision L}.

Local Open Scope R_scope.

(** C3 (as amended): on an empty dataset, a frame with zero rows whose
    feature column is present and empty, [info_gain] raises nothing and
    returns 0, whatever the label sequence is. *)
Theorem info_gain_empty_dataset (X : DataFrame V) (y : list L)
    (feature : string) (col : list V) :
  nrows X = 0%nat → columns X !! feature = Some col →
  length col = nrows X → info_gain X y feature = Ok 0.
Proof.
  intros Hn Hcol Hlen. apply info_gain_no_rows.
  rewrite Hcol. f_equal. apply nil_length_inv. lia.
Qed.

(** C7: for a non-empty dataset whose feature column is present and whose
    label sequence covers every row, [info_gain] returns a value, and that
    value is greater than or equal to 0. *)
Theorem info_gain_nonneg (X : DataFrame V) (y : list L)
    (feature : string) (col : list V) :
  (0 < nrows X)%nat → columns X !! feature = Some col →
  (length col <= length y)%nat →
  ∃ r, info_gain X y feature = Ok r ∧ 0 <= r.
Proof.
  intros Hn Hcol Hlen. unfold info_gain, getcol. rewrite Hcol.
  cbn [mbind result_bind].
  destruct (gain_loop_ok (nrows X) col y (py_set col) 0 Hn Hlen) as [r Hr].
  exists r. split; [exact Hr |].
  eapply gain_loop_nonneg; [exact Hr | lra].
Qed.

(** C8: the entropy computed for a non-empty label sequence whose labels
    are all equal is exactly 0, in any base; and inside [info_gain] the
    loop iteration of a value whose partition is single-class leaves the
    accumulated gain unchanged. *)
Theorem single_class_entropy_zero (base : option R) (l : L) (new_y : list L) :
  new_y ≠ [] → Forall (λ c, c = l) new_y →
  label_entropy base new_y = 0 ∧
  ∀ (n : nat) (col : list V) (y : list L) (value : V) (rest : list V)
    (gain : R),
    (0 < n)%nat → select_labels 0 col y value = Ok new_y →
    gain_loop n col y (value :: rest) gain = gain_loop n col y rest gain.
Proof.
  intros Hne Hall. split.
  - now apply (label_entropy_single_class base l).
  - intros n col y value rest gain Hn Hsel. cbn [gain_loop].
    rewrite Hsel. cbn [mbind result_bind].
    destruct n as [| n']; [lia |]. cbn [py_div].
    rewrite (label_entropy_single_class None l) by assumption.
    cbn [mbind result_bind]. rewrite Rmult_0_r, Rplus_0_r. reflexivity.
Qed.

(** C9: the result of [info_gain] is determined by the column
    [X[feature]], the label sequence and the row count; frames that agree
    on these give the same result, whatever their other columns hold. *)
Theorem info_gain_depends_only_on_column (X1 X2 : DataFrame V) (y : list L)
    (feature : string) :
  columns X1 !! feature = columns X2 !! feature →
  nrows X1 = nrows X2 →
  info_gain X1 y feature = info_gain X2 y feature.
Proof. apply info_gain_agree. Qed.

End EvaluatorClaims.

Section EvaluatorExamples.

Import Titanic.

Local Open Scope R_scope.

(** C3, refuted as stated: on the empty dataset [info_gain] returns the
    value 0 and raises no exception. *)
Lemma info_gain_empty_no_error :
  info_gain empty_X ([] : list outcome) "f" = Ok 0 ∧
  ¬ ∃ e, info_gain empty_X ([] : list outcome) "f" = Raise e.
Proof.
  assert (Hrun : info_gain empty_X ([] : list outcome) "f" = Ok 0)
    by (apply info_gain_no_rows; reflexivity).
  split; [exact Hrun |]. intros [e He]. congruence.
Qed.

Lemma info_gain_empty_dataset_witness :
  nrows empty_X = 0%nat ∧ columns empty_X !! "f" = Some [] ∧
  length ([] : list string) = nrows empty_X ∧
  info_gain empty_X S_y "f" = Ok 0.
Proof.
  assert (H1 : nrows empty_X = 0%nat) by reflexivity.
  assert (H2 : columns empty_X !! "f" = Some []) by reflexivity.
  assert (H3 : length ([] : list string) = nrows empty_X) by reflexivity.
  exact (conj H1 (conj H2 (conj H3
    (info_gain_empty_dataset empty_X S_y "f" [] H1 H2 H3)))).
Defined.

Lemma info_gain_nonneg_witness :
  (0 < nrows S_X)%nat ∧
  columns S_X !! "X" = Some ["x2"; "x2"; "x3"; "x1"] ∧
  (length ["x2"; "x2"; "x3"; "x1"] <= length S_y)%nat ∧
  ∃ r, info_gain S_X S_y "X" = Ok r ∧ 0 <= r.
Proof.
  assert (H1 : (0 < nrows S_X)%nat) by (simpl; lia).
  assert (H2 : columns S_X !! "X" = Some ["x2"; "x2"; "x3"; "x1"])
    by reflexivity.
  assert (H3 : (length ["x2"; "x2"; "x3"; "x1"] <= length S_y)%nat)
    by (simpl; lia).
  exact (conj H1 (conj H2 (conj H3
    (info_gain_nonneg S_X S_y "X" _ H1 H2 H3)))).
Defined.

Lemma single_class_entropy_zero_witness :
  [died] ≠ [] ∧ Forall (λ c, c = died) [died] ∧
  label_entropy (Some 2) [died] = 0 ∧
  (0 < 4)%nat ∧
  select_labels 0 ["x2"; "x2"; "x3"; "x1"] S_y "x3" = Ok [died] ∧
  gain_loop 4 ["x2"; "x2"; "x3"; "x1"] S_y ["x3"; "x1"] 0
  = gain_loop 4 ["x2"; "x2"; "x3"; "x1"] S_y ["x1"] 0.
Proof.
  assert (H1 : [died] ≠ []) by discriminate.
  assert (H2 : Forall (λ c, c = died) [died]) by (repeat constructor).
  assert (H3 : (0 < 4)%nat) by lia.
  assert (H4 : select_labels 0 ["x2"; "x2"; "x3"; "x1"] S_y "x3" = Ok [died])
    by reflexivity.
  pose proof (single_class_entropy_zero (V := string) (Some 2) died [died]
                H1 H2) as [Hzero Hloop].
  exact (conj H1 (conj H2 (conj Hzero (conj H3 (conj H4
    (Hloop 4%nat _ S_y "x3" ["x1"] 0 H3 H4)))))).
Defined.

Lemma info_gain_depends_only_on_column_witness :
  columns mixed_X !! "f" = columns mixed_X' !! "f" ∧
  nrows mixed_X = nrows mixed_X' ∧
  info_gain mixed_X mixed_y "f" = info_gain mixed_X' mixed_y "f".
Proof.
  assert (H1 : columns mixed_X !! "f" = columns mixed_X' !! "f")
    by reflexivity.
  assert (H2 : nrows mixed_X = nrows mixed_X') by reflexivity.
  exact (conj H1 (conj H2
    (info_gain_depends_only_on_column mixed_X mixed_X' mixed_y "f" H1 H2))).
Defined.

End EvaluatorExamples.

(** ** Logarithm bounds *)

Section LogBounds.

Local Open Scope R_scope.

Lemma ln_ratio_lower (a b : R) : 0 < a → 0 < b → 1 - a / b <= ln b - ln a.
Proof.
  intros Ha Hb.
  pose proof (exp_ineq1_le (ln a - ln b)) as Hexp.
  unfold Rminus in Hexp. rewrite exp_plus, exp_Ropp in Hexp.
  rewrite !exp_ln in Hexp by assumption.
  unfold Rdiv. lra.
Qed.

(** Comparing integer powers gives linear inequalities between
    logarithms of integers. *)
Lemma scaled_pow_lt_ln (c a m d b n : Z) :
  (0 < c)%Z → (0 < a)%Z → (0 <= m)%Z →
  (0 < d)%Z → (0 < b)%Z → (0 <= n)%Z →
  (c * a ^ m < d * b ^ n)%Z →
  ln (IZR c) + IZR m * ln (IZR a) < ln (IZR d) + IZR n * ln (IZR b).
Proof.
  intros Hc Ha Hm Hd Hb Hn Hlt.
  assert (0 < IZR c) by (apply IZR_lt; assumption).
  assert (0 < IZR a) by (apply IZR_lt; assumption).
  assert (0 < IZR d) by (apply IZR_lt; assumption).
  assert (0 < IZR b) by (apply IZR_lt; assumption).
  rewrite <- (Z2Nat.id m), <- (Z2Nat.id n) in * by assumption.
  rewrite <- !INR_IZR_INZ, <- !ln_pow by assumption.
  rewrite <- !ln_mult by (try apply pow_lt; assumption).
  apply ln_increasing.
  - apply Rmult_lt_0_compat; [| apply pow_lt]; assumption.
  - rewrite !pow_IZR, <- !mult_IZR. apply IZR_lt. exact Hlt.
Qed.

Ltac by_powers c a m d b n :=
  let H := fresh "Hpow" in
  pose proof (scaled_pow_lt_ln c a m d b n
    ltac:(lia) ltac:(lia) ltac:(lia) ltac:(lia) ltac:(lia) ltac:(lia)
    ltac:(vm_compute; reflexivity)) as H;
  rewrite ?ln_1 in H.

Lemma ln_2_bounds : 686 / 1000 < ln 2 < 7 / 10.
Proof.
  by_powers 1%Z 1000%Z 98%Z 2%Z 993%Z 98%Z.
  by_powers 2%Z 1000%Z 100%Z 1%Z 1007%Z 100%Z.
  pose proof (ln_ratio_lower 993 1000 ltac:(lra) ltac:(lra)) as H1.
  pose proof (ln_ratio_lower 1007 1000 ltac:(lra) ltac:(lra)) as H2.
  lra.
Qed.

Lemma ln_2_pos : 0 < ln 2.
Proof. pose proof ln_2_bounds. lra. Qed.

Lemma log2R_3_bounds : 84 / 53 < log2R 3 < 485 / 306.
Proof.
  by_powers 1%Z 2%Z 84%Z 1%Z 3%Z 53%Z.
  by_powers 1%Z 3%Z 306%Z 1%Z 2%Z 485%Z.
  pose proof ln_2_pos as H2. unfold log2R. split.
  - apply (Rmult_lt_reg_r (ln 2)); [lra |].
    unfold Rdiv at 2. rewrite Rmult_assoc, Rinv_l by lra. lra.
  - apply (Rmult_lt_reg_r (ln 2)); [lra |].
    unfold Rdiv at 1. rewrite Rmult_assoc, Rinv_l by lra. lra.
Qed.

Lemma ln_half : ln (1 / 2) = - ln 2.
Proof. unfold Rdiv. rewrite Rmult_1_l. apply ln_Rinv. lra. Qed.

Lemma entr_half : entr (1 / 2) = ln 2 / 2.
Proof. rewrite entr_pos by lra. rewrite ln_half. lra. Qed.

Lemma ln_4 : ln 4 = 2 * ln 2.
Proof. replace 4 with (2 * 2) by lra. rewrite ln_mult by lra. lra. Qed.

Lemma entr_quarter : entr (1 / 4) = ln 2 / 2.
Proof.
  rewrite entr_pos by lra. unfold Rdiv. rewrite Rmult_1_l.
  rewrite ln_Rinv by lra. rewrite ln_4. lra.
Qed.

Lemma entr_three_quarters : entr (3 / 4) = 3 / 4 * (2 * ln 2 - ln 3).
Proof.
  rewrite entr_pos by lra. unfold Rdiv at 2.
  rewrite ln_mult, ln_Rinv, ln_4 by lra. lra.
Qed.

End LogBounds.

(** ** Running [info_gain] on the concrete datasets *)

(** Evaluate the list-processing parts of a run, leaving the real
    arithmetic untouched. *)
Ltac eval_discrete :=
  repeat match goal with
  | |- context [py_set ?l] =>
      let r := eval vm_compute in (py_set l) in
      change (py_set l) with r
  | |- context [select_labels ?s ?c ?y ?v] =>
      let r := eval vm_compute in (select_labels s c y v) in
      change (select_labels s c y v) with r
  | |- context [rows_with ?v ?c ?y] =>
      let r := eval vm_compute in (rows_with v c y) in
      change (rows_with v c y) with r
  | |- context [count_class ?v ?l] =>
      let r := eval vm_compute in (count_class v l) in
      change (count_class v l) with r
  | |- context [length ?l] =>
      let r := eval vm_compute in (length l) in
      change (length l) with r
  | |- context [nrows ?X] =>
      let r := eval vm_compute in (nrows X) in
      change (nrows X) with r
  end.

Ltac eval_lists :=
  repeat (progress (eval_discrete;
                    cbn [map np_sum gain_loop mbind result_bind py_div])).

Ltac start_info_gain :=
  unfold info_gain, getcol;
  match goal with
  | |- context [columns ?X !! ?f] =>
      let r := eval vm_compute in (columns X !! f) in
      change (columns X !! f) with r
  end;
  cbn [mbind result_bind nrows];
  eval_lists.

Ltac pick_positive :=
  repeat match goal with
  | |- context [Rlt_dec 0%R ?p] => destruct (Rlt_dec 0%R p); [| lra]
  end.

Section WorkedExample.

Import Titanic.

Local Open Scope R_scope.

Lemma label_entropy_survived_died :
  label_entropy None [survived; died] = ln 2.
Proof.
  unfold label_entropy, class_counts. eval_discrete.
  unfold entropy. cbn [map np_sum]. simpl INR.
  replace (1 / (1 + (1 + 0)) / (1 / (1 + (1 + 0)) + (1 / (1 + (1 + 0)) + 0)))
    with (1 / 2) by field.
  rewrite entr_half. lra.
Qed.

Lemma label_entropy_died : label_entropy None [died] = 0.
Proof.
  apply (label_entropy_single_class None died); [discriminate |].
  repeat constructor.
Qed.

Lemma info_gain_mixed : info_gain mixed_X mixed_y "f" = Ok (ln 2).
Proof.
  start_info_gain.
  rewrite label_entropy_survived_died. simpl INR. f_equal. field.
Qed.

Lemma info_gain_worked : info_gain S_X S_y "X" = Ok (ln 2 / 2).
Proof.
  start_info_gain.
  rewrite label_entropy_survived_died, label_entropy_died.
  simpl INR. f_equal. field.
Qed.

(** The same examples under the definitions that follow the text. *)

Lemma log2R_half : log2R (1 / 2) = -1.
Proof.
  unfold log2R. rewrite ln_half. pose proof ln_2_pos. field. lra.
Qed.

Lemma log2R_quarter : log2R (1 / 4) = -2.
Proof.
  unfold log2R, Rdiv at 2. rewrite Rmult_1_l, ln_Rinv, ln_4 by lra.
  pose proof ln_2_pos. field. lra.
Qed.

Lemma log2R_three_quarters : log2R (3 / 4) = log2R 3 - 2.
Proof.
  unfold log2R, Rdiv at 2. rewrite ln_mult, ln_Rinv, ln_4 by lra.
  pose proof ln_2_pos. field. lra.
Qed.

Lemma spec_entropy_survived_died : spec_entropy [survived; died] = 1.
Proof.
  unfold spec_entropy. eval_discrete. cbn [map np_sum]. simpl INR.
  replace (1 / (1 + 1)) with (1 / 2) by field.
  pick_positive. rewrite log2R_half. lra.
Qed.

Lemma spec_entropy_died : spec_entropy [died] = 0.
Proof.
  unfold spec_entropy. eval_discrete. cbn [map np_sum]. simpl INR.
  replace (1 / 1) with 1 by field.
  pick_positive. unfold log2R. rewrite ln_1. lra.
Qed.

Lemma spec_entropy_S_y : spec_entropy S_y = 2 - 3 / 4 * log2R 3.
Proof.
  unfold spec_entropy, S_y. eval_discrete. cbn [map np_sum]. simpl INR.
  replace (1 / (1 + 1 + 1 + 1)) with (1 / 4) by field.
  replace ((1 + 1 + 1) / (1 + 1 + 1 + 1)) with (3 / 4) by field.
  pick_positive. rewrite log2R_quarter, log2R_three_quarters. lra.
Qed.

Lemma spec_info_gain_mixed : spec_info_gain ["a"; "a"] mixed_y = 0.
Proof.
  unfold spec_info_gain, mixed_y. eval_lists.
  rewrite spec_entropy_survived_died. simpl INR. field.
Qed.

Lemma spec_info_gain_worked :
  spec_info_gain ["x2"; "x2"; "x3"; "x1"] S_y = 3 / 2 - 3 / 4 * log2R 3.
Proof.
  unfold spec_info_gain. rewrite spec_entropy_S_y. unfold S_y.
  eval_lists.
  rewrite spec_entropy_survived_died, spec_entropy_died. simpl INR. field.
Qed.

End WorkedExample.

(** ** The code against the text of the notebook *)

Section CodeVersusText.

Context {V L : Type} `{EqDecision V, EqDecision L}.

Local Open Scope R_scope.

Lemma select_labels_rows_with (col : list V) (y : list L) (x : V) :
  ∀ start : nat, (start + length col <= length y)%nat →
    select_labels start col y x = Ok (rows_with x col (drop start y)).
Proof.
  induction col as [| d col IH]; intros start Hlen; cbn [select_labels].
  - destruct (drop start y); reflexivity.
  - simpl in Hlen.
    destruct (lookup_lt_is_Some_2 y start) as [yi Hyi]; [lia |].
    rewrite (drop_S _ _ _ Hyi). cbn [rows_with].
    rewrite IH by lia. unfold getitem. rewrite Hyi.
    destruct (decide (d = x)); reflexivity.
Qed.

Lemma gain_loop_sum (n : nat) (col : list V) (y : list L) (values : list V) :
  (0 < n)%nat → (length col <= length y)%nat →
  ∀ gain : R,
    gain_loop n col y values gain =
      Ok (gain + np_sum (map (λ x, let Sx := rows_with x col y in
                                   INR (length Sx) / INR n
                                   * label_entropy None Sx) values)).
Proof.
  intros Hn Hlen. induction values as [| x rest IH]; intros gain.
  - simpl. f_equal. lra.
  - cbn [gain_loop]. rewrite select_labels_rows_with by (simpl; lia).
    rewrite drop_0. cbn [mbind result_bind].
    destruct n as [| n']; [lia |]. cbn [py_div mbind result_bind].
    rewrite IH. cbn [map np_sum]. f_equal. lra.
Qed.

Lemma np_sum_Permutation (xs ys : list R) :
  xs ≡ₚ ys → np_sum xs = np_sum ys.
Proof. induction 1; cbn [np_sum]; lra. Qed.

(** The order in which the values of the feature are visited does not
    change the result. *)
Lemma gain_loop_order (n : nat) (col : list V) (y : list L)
    (values values' : list V) (gain : R) :
  (0 < n)%nat → (length col <= length y)%nat → values ≡ₚ values' →
  gain_loop n col y values gain = gain_loop n col y values' gain.
Proof.
  intros Hn Hlen Hperm. rewrite !gain_loop_sum by assumption.
  do 2 f_equal. apply np_sum_Permutation, Permutation_map, Hperm.
Qed.

(** The counts of the distinct labels add up to the number of labels. *)
Lemma count_class_cons (v c : L) (ys : list L) :
  count_class v (c :: ys)
  = ((if decide (c = v) then 1 else 0) + count_class v ys)%nat.
Proof. simpl. destruct (decide (c = v)); reflexivity. Qed.

Lemma np_sum_scaled {A : Type} (f g : A → R) (a : R) (xs : list A) :
  (∀ x, f x = a * g x) → np_sum (map f xs) = a * np_sum (map g xs).
Proof.
  intros Hfg. induction xs as [| x xs IH]; cbn [map np_sum]; [lra |].
  rewrite IH, Hfg. lra.
Qed.

Lemma np_sum_plus {A : Type} (f g : A → R) (xs : list A) :
  np_sum (map (λ x, f x + g x) xs) = np_sum (map f xs) + np_sum (map g xs).
Proof.
  induction xs as [| x xs IH]; cbn [map np_sum]; [lra |]. rewrite IH. lra.
Qed.

Lemma np_sum_indicator (c : L) (vs : list L) :
  NoDup vs →
  np_sum (map (λ v, INR (if decide (c = v) then 1 else 0)) vs)
  = if decide (c ∈ vs) then 1 else 0.
Proof.
  induction 1 as [| v vs Hv Hnd IH]; cbn [map np_sum].
  - rewrite decide_False by apply not_elem_of_nil. reflexivity.
  - rewrite IH. destruct (decide (c = v)) as [-> | Hne].
    + rewrite (decide_False (P := v ∈ vs)) by assumption.
      rewrite decide_True by apply list_elem_of_here. simpl. lra.
    + destruct (decide (c ∈ vs)) as [Hin | Hnin].
      * rewrite decide_True by now apply list_elem_of_further. simpl. lra.
      * rewrite decide_False; [simpl; lra |].
        intros [? | ?]%elem_of_cons; contradiction.
Qed.

Lemma np_sum_counts (vs ys : list L) :
  NoDup vs → ys ⊆ vs →
  np_sum (map (λ v, INR (count_class v ys)) vs) = INR (length ys).
Proof.
  intros Hnd. induction ys as [| c ys IH]; intros Hsub.
  - cbn [count_class length]. rewrite (np_sum_scaled _ (λ _, 0) 0); [simpl; lra |].
    intros _. simpl. lra.
  - rewrite (np_sum_scaled _ (λ v, INR (if decide (c = v) then 1 else 0)
                                   + INR (count_class v ys)) 1).
    2:{ intros v. rewrite count_class_cons, plus_INR. lra. }
    rewrite np_sum_plus, np_sum_indicator by assumption.
    rewrite decide_True by (apply Hsub, list_elem_of_here).
    rewrite IH by (intros v Hv; now apply Hsub, list_elem_of_further).
    cbn [length]. rewrite S_INR. lra.
Qed.

Lemma label_entropy_total (ys : list L) :
  np_sum (class_counts ys) = INR (length ys).
Proof.
  unfold class_counts, py_set. apply np_sum_counts.
  - apply NoDup_remove_dups.
  - intros v Hv. now apply elem_of_remove_dups.
Qed.

(** The entropy [info_gain] computes is the base-2 entropy of the text
    scaled by [ln 2]. *)
Lemma label_entropy_spec_entropy (ys : list L) :
  label_entropy None ys = ln 2 * spec_entropy ys.
Proof.
  unfold label_entropy, spec_entropy. rewrite label_entropy_total.
  destruct ys as [| y0 ys'].
  { unfold class_counts, entropy. simpl. lra. }
  set (ys := y0 :: ys'). set (N := INR (length ys)).
  assert (HN : 0 < N) by (apply lt_0_INR; simpl; lia).
  unfold entropy.
  assert (Hone : np_sum (map (λ c, c / N) (class_counts ys)) = 1).
  { rewrite (np_sum_scaled _ (λ c, c) (/ N)) by (intros c; lra).
    rewrite map_id, label_entropy_total. fold N. field. lra. }
  rewrite Hone. unfold class_counts. rewrite !map_map.
  match goal with
  | |- _ = ln 2 * - ?S => replace (ln 2 * - S) with (- ln 2 * S) by lra
  end.
  apply np_sum_scaled. intros v. cbv zeta. fold N.
  replace (INR (count_class v ys) / N / 1) with (INR (count_class v ys) / N)
    by (field; lra).
  unfold entr, log2R. pose proof ln_2_pos.
  destruct (Rlt_dec 0 (INR (count_class v ys) / N)); [field; lra | lra].
Qed.

(** Asked for base 2, as in the demonstration cells of the notebook, the
    library entropy of the class ratios is the entropy of the text. *)
Lemma label_entropy_base_2 (ys : list L) :
  label_entropy (Some 2) ys = spec_entropy ys.
Proof.
  pose proof (label_entropy_spec_entropy ys) as Hnat.
  unfold label_entropy, entropy in *. cbv zeta in *. rewrite Hnat.
  pose proof ln_2_pos. field. lra.
Qed.

(** What [info_gain] returns on a well-formed input, in the terms of the
    text: [ln 2] times the weighted base-2 entropy of the partitions, that
    is, [ln 2] times the difference between the entropy of [S] and the
    gain of the text. *)
Lemma info_gain_versus_text (X : DataFrame V) (y : list L) (feature : string)
    (col : list V) :
  columns X !! feature = Some col → length col = nrows X →
  length y = nrows X → (0 < nrows X)%nat →
  info_gain X y feature = Ok (ln 2 * (spec_entropy y - spec_info_gain col y)).
Proof.
  intros Hcol Hlen Hy Hn. unfold info_gain, getcol. rewrite Hcol.
  cbn [mbind result_bind]. rewrite gain_loop_sum by lia. f_equal.
  unfold spec_info_gain. rewrite Hlen.
  rewrite (np_sum_scaled _
    (λ x, let Sx := rows_with x col y in
          INR (length Sx) / INR (nrows X) * spec_entropy Sx) (ln 2)).
  - lra.
  - intros x. cbv zeta. rewrite label_entropy_spec_entropy. lra.
Qed.

Lemma rows_with_all {A : Type} (x : V) (col : list V) (ys : list A) :
  Forall (λ d, d = x) col → length col = length ys → rows_with x col ys = ys.
Proof.
  intros Hall. revert ys.
  induction Hall as [| d col -> _ IH]; intros [| y ys] Hlen;
    try discriminate; [reflexivity |].
  cbn [rows_with]. rewrite decide_True by reflexivity.
  f_equal. apply IH. simpl in Hlen. lia.
Qed.

(** For a feature with one observed value the gain of the text is 0, and
    [info_gain] returns [ln 2] times the base-2 entropy of the labels. *)
Lemma info_gain_single_value (X : DataFrame V) (y : list L)
    (feature : string) (col : list V) (x : V) :
  columns X !! feature = Some col → length col = nrows X →
  length y = nrows X → (0 < nrows X)%nat → Forall (λ d, d = x) col →
  spec_info_gain col y = 0 ∧
  info_gain X y feature = Ok (ln 2 * spec_entropy y).
Proof.
  intros Hcol Hlen Hy Hn Hall.
  assert (Hgain : spec_info_gain col y = 0).
  { unfold spec_info_gain. rewrite (py_set_all x) by
      (try assumption; intros ->; simpl in Hlen; lia).
    cbn [map np_sum]. rewrite rows_with_all by (try assumption; lia).
    rewrite Hlen, Hy. field. apply not_0_INR. lia. }
  split; [exact Hgain |].
  rewrite (info_gain_versus_text X y feature col) by assumption.
  rewrite Hgain. f_equal. lra.
Qed.

End CodeVersusText.

(** ** Claims about [info_gain] against the text *)

Section TextClaims.

Import Titanic.

Local Open Scope R_scope.

(** C1, at a dataset where it fails: two rows share the feature value and
    carry different labels.  The text's gain, entropy of [S] minus the
    weighted partition entropies in base 2, is 0 there, whereas
    [info_gain] returns [ln 2]: it accumulates only the weighted partition
    entropies, never subtracts them from the entropy of [S], and takes
    natural logarithms. *)
Theorem info_gain_omits_entropy_of_S :
  info_gain mixed_X mixed_y "f" = Ok (ln 2) ∧
  spec_info_gain ["a"; "a"] mixed_y = 0 ∧
  ln 2 ≠ 0.
Proof.
  split; [exact info_gain_mixed |]. split; [exact spec_info_gain_mixed |].
  pose proof ln_2_pos. lra.
Qed.

(** C2, at the worked example of the notebook: the entropy of [S] in
    base 2, whether computed by the library [entropy] with [base=2] or by
    the formula of the text, is 0.8113 and the gain of the text is 0.3113
    to four decimals, but [info_gain] returns [ln 2 / 2], which lies
    between 0.343 and 0.35. *)
Theorem info_gain_worked_example :
  8112 / 10000 < label_entropy (Some 2) S_y < 8114 / 10000 ∧
  8112 / 10000 < spec_entropy S_y < 8114 / 10000 ∧
  3112 / 10000 < spec_info_gain ["x2"; "x2"; "x3"; "x1"] S_y < 3114 / 10000 ∧
  ∃ r, info_gain S_X S_y "X" = Ok r ∧ 343 / 1000 < r < 35 / 100.
Proof.
  pose proof log2R_3_bounds as H3. pose proof ln_2_bounds as H2.
  rewrite label_entropy_base_2, spec_entropy_S_y, spec_info_gain_worked.
  split; [lra |]. split; [lra |]. split; [lra |].
  exists (ln 2 / 2). split; [exact info_gain_worked | lra].
Qed.

(** C6, at a dataset where it fails: the feature column holds the single
    value ["a"], yet [info_gain] returns a strictly positive number, the
    entropy of the mixed labels. *)
Theorem info_gain_single_value_positive :
  py_set ["a"; "a"] = ["a"] ∧
  ∃ r, info_gain mixed_X mixed_y "f" = Ok r ∧ 0 < r.
Proof.
  split; [reflexivity |]. exists (ln 2).
  split; [exact info_gain_mixed | exact ln_2_pos].
Qed.

End TextClaims.

(** ** Facts about the tree builder *)

Section TreeBuilderFacts.

Context {V L : Type} `{EqDecision V, EqDecision L}.

Variable gain : DataFrame V → list L → string → result R.

Lemma mapM_result_Ok {A B : Type} (g : A → result B) (xs : list A)
    (ys : list B) :
  mapM g xs = Ok ys → Forall2 (λ x b, g x = Ok b) xs ys.
Proof.
  revert ys. induction xs as [| x xs IH]; intros ys Hrun; simpl in Hrun.
  - injection Hrun as <-. constructor.
  - destruct (g x) as [b |] eqn:Hb; [| discriminate]. simpl in Hrun.
    destruct (mapM g xs) as [bs |]; [| discriminate].
    cbn [mbind mret result_bind result_ret] in Hrun.
    injection Hrun as <-. constructor; [exact Hb | now apply IH].
Qed.

Lemma mapM_result_Raise {A B : Type} (g : A → result B) (xs : list A)
    (e : exn) :
  mapM g xs = Raise e → ∃ x, x ∈ xs ∧ g x = Raise e.
Proof.
  induction xs as [| x xs IH]; intros Hrun; simpl in Hrun; [discriminate |].
  destruct (g x) as [b |] eqn:Hb; simpl in Hrun.
  - destruct (mapM g xs) as [bs |]; simpl in Hrun; [discriminate |].
    destruct IH as (x' & Hin & Hx'); [congruence |].
    exists x'. split; [now apply list_elem_of_further | exact Hx'].
  - exists x. split; [apply list_elem_of_here | congruence].
Qed.

Lemma best_feature_elem (X : DataFrame V) (y : list L) (feats : list string)
    (best f : string) (best_gain : R) :
  best_feature gain X y feats best best_gain = Ok f → f = best ∨ f ∈ feats.
Proof.
  revert best best_gain.
  induction feats as [| f' rest IH]; intros best best_gain Hrun;
    simpl in Hrun.
  - left. congruence.
  - destruct (gain X y f') as [g |]; [| discriminate]. simpl in Hrun.
    destruct (Rlt_dec best_gain g); apply IH in Hrun as [-> | Hin];
      auto using list_elem_of_here, list_elem_of_further.
Qed.

Lemma choose_feature_elem (X : DataFrame V) (y : list L)
    (feats : list string) (f : string) :
  choose_feature gain X y feats = Ok f → f ∈ feats.
Proof.
  destruct feats as [| f' rest]; simpl; [discriminate |].
  destruct (gain X y f') as [g |]; [| discriminate]. simpl.
  intros [-> | Hin]%best_feature_elem;
    auto using list_elem_of_here, list_elem_of_further.
Qed.

Lemma best_feature_Raise (X : DataFrame V) (y : list L) (feats : list string)
    (best : string) (best_gain : R) (e : exn) :
  best_feature gain X y feats best best_gain = Raise e →
  ∃ f, gain X y f = Raise e.
Proof.
  revert best best_gain.
  induction feats as [| f' rest IH]; intros best best_gain Hrun;
    cbn [best_feature] in Hrun; [discriminate |].
  destruct (gain X y f') as [g |] eqn:Hg.
  - cbn [mbind result_bind] in Hrun.
    destruct (Rlt_dec best_gain g); eapply IH; exact Hrun.
  - exists f'. cbn [mbind result_bind] in Hrun. congruence.
Qed.

Lemma choose_feature_Raise (X : DataFrame V) (y : list L) (f0 : string)
    (feats : list string) (e : exn) :
  choose_feature gain X y (f0 :: feats) = Raise e →
  ∃ f, gain X y f = Raise e.
Proof.
  cbn [choose_feature]. destruct (gain X y f0) as [g |] eqn:Hg.
  - cbn [mbind result_bind]. apply best_feature_Raise.
  - cbn [mbind result_bind]. intros Hrun. exists f0. congruence.
Qed.

(** The three outcomes, in priority order. *)
Lemma ID3_rec_pure (fuel : nat) (X : DataFrame V) (l0 : L) (y' : list L)
    (feats : list string) :
  Forall (λ c, c = l0) (l0 :: y') →
  ID3_rec gain fuel X (l0 :: y') feats = Ok (Leaf l0).
Proof.
  intros Hall. destruct fuel; cbn [ID3_rec]; now rewrite decide_True.
Qed.

Lemma ID3_rec_no_features (fuel : nat) (X : DataFrame V) (l0 : L)
    (y' : list L) :
  ¬ Forall (λ c, c = l0) (l0 :: y') →
  ID3_rec gain fuel X (l0 :: y') [] =
    Ok (Leaf (most_common (l0 :: y') (l0 :: y') l0)).
Proof.
  intros Hmixed. destruct fuel; cbn [ID3_rec]; now rewrite decide_False.
Qed.

Lemma ID3_rec_split (fuel' : nat) (X : DataFrame V) (l0 : L) (y' : list L)
    (f0 : string) (feats' : list string) :
  ¬ Forall (λ c, c = l0) (l0 :: y') →
  ID3_rec gain (S fuel') X (l0 :: y') (f0 :: feats') =
    (xstar ← choose_feature gain X (l0 :: y') (f0 :: feats');
     col ← match columns X !! xstar with
           | Some col => Ok col
           | None => Raise InconsistentSchemaError
           end;
     children ← mapM (λ v,
                   '(Xv, yv) ← subset X (l0 :: y') xstar v;
                   child ← ID3_rec gain fuel' Xv yv
                             (filter (λ f, f ≠ xstar) (f0 :: feats'));
                   Ok (v, child))
                 (py_set col);
     Ok (Internal xstar children)).
Proof.
  intros Hmixed. cbn [ID3_rec]. now rewrite decide_False.
Qed.

(** The shape of a run that ends in an internal node: fuel was left, the
    feature was a candidate, and each child was built from the matching
    subset with that feature filtered out of the candidates. *)
Lemma ID3_rec_Internal (fuel : nat) (X : DataFrame V) (y : list L)
    (feats : list string) (f : string) (children : list (V * tree V L)) :
  ID3_rec gain fuel X y feats = Ok (Internal f children) →
  f ∈ feats ∧
  ∃ fuel', fuel = S fuel' ∧
    Forall (λ vc, ∃ Xv yv,
              subset X y f vc.1 = Ok (Xv, yv) ∧
              ID3_rec gain fuel' Xv yv (filter (λ g, g ≠ f) feats) = Ok vc.2)
           children.
Proof.
  intros Hrun. destruct y as [| l0 y']; [destruct fuel; discriminate |].
  destruct (decide (Forall (λ c, c = l0) (l0 :: y'))) as [Hall | Hmixed].
  { rewrite ID3_rec_pure in Hrun by assumption. discriminate. }
  destruct feats as [| f0 feats'].
  { rewrite ID3_rec_no_features in Hrun by assumption. discriminate. }
  destruct fuel as [| fuel'].
  { cbn [ID3_rec] in Hrun. rewrite decide_False in Hrun by assumption.
    discriminate. }
  rewrite ID3_rec_split in Hrun by assumption.
  destruct (choose_feature gain X (l0 :: y') (f0 :: feats')) as [xstar |]
    eqn:Hchoose; [| discriminate].
  cbn [mbind result_bind] in Hrun.
  destruct (columns X !! xstar) as [col |]; [| discriminate].
  cbn [mbind result_bind] in Hrun.
  match type of Hrun with
  | context [mapM ?g ?vs] => destruct (mapM g vs) as [ch |] eqn:Hch
  end; [| discriminate].
  cbn [mbind result_bind] in Hrun. injection Hrun as <- <-.
  split; [eapply choose_feature_elem; exact Hchoose |].
  exists fuel'. split; [reflexivity |].
  apply mapM_result_Ok in Hch.
  induction Hch as [| v [v' c] vs ch Hv _ IH]; constructor; [| exact IH].
  destruct (subset X (l0 :: y') xstar v) as [[Xv yv] |] eqn:Hsub;
    [| discriminate].
  cbn [mbind result_bind] in Hv.
  destruct (ID3_rec gain fuel' Xv yv _) as [c' |] eqn:Hc'; [| discriminate].
  cbn [mbind result_bind] in Hv. injection Hv as <- <-.
  exists Xv, yv. split; [exact Hsub | exact Hc'].
Qed.

(** Along every root-to-leaf path the splitting features are candidates
    and pairwise distinct. *)
Lemma ID3_rec_paths (fuel : nat) :
  ∀ (X : DataFrame V) (y : list L) (feats : list string) (t : tree V L),
    ID3_rec gain fuel X y feats = Ok t →
    Forall (λ p, NoDup p ∧ p ⊆ feats) (paths t).
Proof.
  induction fuel as [| fuel' IH]; intros X y feats [l | f children] Hrun;
    try (repeat constructor; apply list_subseteq_nil).
  - apply ID3_rec_Internal in Hrun as (_ & fuel'' & Hfuel & _). discriminate.
  - apply ID3_rec_Internal in Hrun as (Hf & fuel'' & [= <-] & Hch).
    cbn [paths]. apply Forall_forall. intros p Hp.
    apply list_elem_of_In, in_map_iff in Hp as (q & <- & Hq).
    apply in_flat_map in Hq as ([v c] & Hvc & Hq).
    rewrite Forall_forall in Hch.
    destruct (Hch (v, c)) as (Xv & yv & _ & Hc); [now apply list_elem_of_In |].
    apply IH in Hc. rewrite Forall_forall in Hc.
    destruct (Hc q) as [Hnd Hsub]; [now apply list_elem_of_In |].
    split.
    + apply NoDup_cons. split; [| exact Hnd].
      intros Hin. apply Hsub, list_elem_of_filter in Hin as [Hne _].
      now apply Hne.
    + intros g [-> | Hg]%elem_of_cons; [exact Hf |].
      apply Hsub, list_elem_of_filter in Hg as [_ Hg]. exact Hg.
Qed.

(** The fuel handed out by [ID3] is never used up, as long as the gain
    function itself does not report exhaustion. *)
Lemma ID3_rec_fuel (fuel : nat) :
  (∀ X y f, gain X y f ≠ Raise OutOfFuel) →
  ∀ (X : DataFrame V) (y : list L) (feats : list string),
    length feats <= fuel → ID3_rec gain fuel X y feats ≠ Raise OutOfFuel.
Proof.
  intros Hgain. induction fuel as [| fuel' IH]; intros X y feats Hlen Hrun.
  - destruct y as [| l0 y']; [discriminate |].
    destruct feats as [| f0 feats']; [| simpl in Hlen; lia].
    cbn [ID3_rec] in Hrun. destruct (decide _); discriminate.
  - destruct y as [| l0 y']; [discriminate |].
    destruct (decide (Forall (λ c, c = l0) (l0 :: y'))) as [Hall | Hmixed].
    { rewrite ID3_rec_pure in Hrun by assumption. discriminate. }
    destruct feats as [| f0 feats'].
    { rewrite ID3_rec_no_features in Hrun by assumption. discriminate. }
    rewrite ID3_rec_split in Hrun by assumption.
    destruct (choose_feature gain X (l0 :: y') (f0 :: feats')) as [xstar | e]
      eqn:Hchoose.
    + pose proof (choose_feature_elem _ _ _ _ Hchoose) as Hin.
      cbn [mbind result_bind] in Hrun.
      destruct (columns X !! xstar) as [col |]; [| discriminate].
      cbn [mbind result_bind] in Hrun.
      match type of Hrun with
      | context [mapM ?g ?vs] => destruct (mapM g vs) as [ch |] eqn:Hch
      end; [discriminate |].
      cbn [mbind result_bind] in Hrun. injection Hrun as ->.
      apply mapM_result_Raise in Hch as (v & _ & Hv).
      destruct (subset X (l0 :: y') xstar v) as [[Xv yv] |] eqn:Hsub.
      * cbn [mbind result_bind] in Hv.
        destruct (ID3_rec gain fuel' Xv yv _) as [c |] eqn:Hc;
          [discriminate |].
        cbn [mbind result_bind] in Hv. injection Hv as ->.
        eapply IH; [| exact Hc].
        pose proof (length_filter_lt (λ f, f ≠ xstar) (f0 :: feats') xstar
                      Hin ltac:(tauto)) as Hlt.
        simpl in Hlen, Hlt. lia.
      * unfold subset in Hsub.
        destruct (columns X !! xstar); [discriminate |].
        injection Hsub as <-. discriminate.
    + cbn [mbind result_bind] in Hrun. injection Hrun as ->.
      apply choose_feature_Raise in Hchoose as [f Hf]. now apply Hgain in Hf.
Qed.

Lemma mapM_result_is_Ok {A B : Type} (g : A → result B) (xs : list A) :
  (∀ x, x ∈ xs → is_Ok (g x)) → is_Ok (mapM g xs).
Proof.
  induction xs as [| x xs IH]; intros Hall; simpl.
  - now exists [].
  - destruct (Hall x) as [b ->]; [apply list_elem_of_here |].
    destruct IH as [bs ->]; [intros x' Hx'; now apply Hall, list_elem_of_further |].
    now exists (b :: bs).
Qed.

Lemma best_feature_total (X : DataFrame V) (y : list L) (feats : list string) :
  (∀ f, f ∈ feats → is_Ok (gain X y f)) →
  ∀ best best_gain, is_Ok (best_feature gain X y feats best best_gain).
Proof.
  induction feats as [| f rest IH]; intros Hall best best_gain;
    cbn [best_feature].
  - now exists best.
  - destruct (Hall f) as [g ->]; [apply list_elem_of_here |].
    cbn [mbind result_bind].
    destruct (Rlt_dec best_gain g); apply IH;
      intros f' Hf'; now apply Hall, list_elem_of_further.
Qed.

Lemma length_rows_with {A B : Type} (v : V) (col : list V) (xs : list A)
    (ys : list B) :
  length xs = length ys →
  length (rows_with v col xs) = length (rows_with v col ys).
Proof.
  revert xs ys. induction col as [| d col IH]; intros [| x xs] [| y ys] Hlen;
    try discriminate; try reflexivity.
  cbn [rows_with]. injection Hlen as Hlen.
  destruct (decide (d = v)); cbn [length]; now rewrite (IH xs ys).
Qed.

Lemma rows_with_nonempty {A : Type} (v : V) (col : list V) (xs : list A) :
  v ∈ col → length col = length xs → rows_with v col xs ≠ [].
Proof.
  revert xs. induction col as [| d col IH]; intros [| x xs] Hin Hlen;
    try discriminate; [inversion Hin |].
  cbn [rows_with]. destruct (decide (d = v)) as [_ | Hne]; [discriminate |].
  apply IH; [| now injection Hlen].
  apply elem_of_cons in Hin as [-> | Hin]; [done | exact Hin].
Qed.

Lemma subset_well_formed (X Xv : DataFrame V) (y yv : list L) (f : string)
    (v : V) :
  well_formed X y → subset X y f v = Ok (Xv, yv) →
  well_formed Xv yv ∧
  (∀ f', is_Some (columns X !! f') → is_Some (columns Xv !! f')) ∧
  (∀ col, columns X !! f = Some col → v ∈ col → yv ≠ []).
Proof.
  intros [Hcols Hy] Hsub. unfold subset in Hsub.
  destruct (columns X !! f) as [col |] eqn:Hcol; [| discriminate].
  injection Hsub as <- <-. unfold well_formed. cbn [columns nrows].
  pose proof (Hcols f col Hcol) as Hlen.
  split; [split |]; [| | split].
  - intros f' col'. rewrite lookup_fmap.
    destruct (columns X !! f') as [c |] eqn:Hc; [| discriminate].
    intros [= <-]. apply length_rows_with.
    rewrite (Hcols f' c Hc). now rewrite Hlen.
  - apply length_rows_with. lia.
  - intros f' [c Hc]. rewrite lookup_fmap, Hc. now eexists.
  - intros col' [= <-] Hin. apply rows_with_nonempty; [exact Hin | lia].
Qed.

(** On well-formed data, with a gain that is defined wherever the column
    exists, the builder returns a tree. *)
Lemma ID3_rec_total (fuel : nat) :
  (∀ X y f, well_formed X y → y ≠ [] → is_Some (columns X !! f) →
            is_Ok (gain X y f)) →
  ∀ (X : DataFrame V) (y : list L) (feats : list string),
    well_formed X y → y ≠ [] →
    (∀ f, f ∈ feats → is_Some (columns X !! f)) →
    length feats <= fuel →
    is_Ok (ID3_rec gain fuel X y feats).
Proof.
  intros Hgain. induction fuel as [| fuel' IH];
    intros X y feats Hwf Hne Hcols Hlen;
    (destruct y as [| l0 y']; [done |]);
    (destruct (decide (Forall (λ c, c = l0) (l0 :: y'))) as [Hall | Hmixed];
      [rewrite ID3_rec_pure by assumption; now eexists |]);
    (destruct feats as [| f0 feats'];
      [rewrite ID3_rec_no_features by assumption; now eexists |]).
  { simpl in Hlen. lia. }
  rewrite ID3_rec_split by assumption.
  assert (Hall : ∀ f, f ∈ f0 :: feats' → is_Ok (gain X (l0 :: y') f))
    by (intros f Hf; apply Hgain; auto).
  assert (Hchoose : is_Ok (choose_feature gain X (l0 :: y') (f0 :: feats'))).
  { cbn [choose_feature].
    destruct (Hall f0) as [g ->]; [apply list_elem_of_here |].
    cbn [mbind result_bind]. apply best_feature_total.
    intros f Hf. now apply Hall, list_elem_of_further. }
  destruct Hchoose as [xstar Hchoose]. rewrite Hchoose.
  pose proof (choose_feature_elem _ _ _ _ Hchoose) as Hin.
  cbn [mbind result_bind].
  destruct (Hcols xstar Hin) as [col Hcol]. rewrite Hcol.
  cbn [mbind result_bind].
  match goal with
  | |- context [mapM ?g ?vs] => destruct (mapM_result_is_Ok g vs) as [ch ->]
  end; [| now eexists].
  intros v Hv. unfold py_set in Hv. rewrite elem_of_remove_dups in Hv.
  destruct (subset X (l0 :: y') xstar v) as [[Xv yv] |] eqn:Hsub.
  - cbn [mbind result_bind].
    apply subset_well_formed in Hsub as (Hwf' & Hcols' & Hne'); [| exact Hwf].
    destruct (IH Xv yv (filter (λ f, f ≠ xstar) (f0 :: feats'))) as [c ->];
      [exact Hwf' | exact (Hne' col Hcol Hv) | | | now eexists].
    + intros f [_ Hf]%list_elem_of_filter. auto.
    + pose proof (length_filter_lt (λ f, f ≠ xstar) (f0 :: feats') xstar
                    Hin ltac:(tauto)) as Hlt.
      simpl in Hlen, Hlt. lia.
  - unfold subset in Hsub. rewrite Hcol in Hsub. discriminate.
Qed.

End TreeBuilderFacts.

(** ** The builder with [info_gain] as its criterion *)

Section InfoGainTotal.

Context {V L : Type} `{EqDecision V, EqDecision L}.

Lemma info_gain_total (X : DataFrame V) (y : list L) (f : string) :
  well_formed X y → y ≠ [] → is_Some (columns X !! f) →
  is_Ok (info_gain X y f).
Proof.
  intros [Hcols Hy] Hne [col Hcol]. unfold info_gain, getcol. rewrite Hcol.
  cbn [mbind result_bind]. apply gain_loop_ok.
  - destruct y; [done | simpl in Hy; lia].
  - rewrite (Hcols f col Hcol). lia.
Qed.

(** With [info_gain] as the criterion, [ID3] returns a tree for every
    well-formed, non-empty dataset whose candidate features are columns. *)
Lemma ID3_info_gain_total (X : DataFrame V) (y : list L)
    (feats : list string) :
  well_formed X y → y ≠ [] →
  (∀ f, f ∈ feats → is_Some (columns X !! f)) →
  is_Ok (ID3 info_gain X y feats).
Proof.
  intros Hwf Hne Hcols. unfold ID3.
  apply ID3_rec_total; auto using info_gain_total.
Qed.

End InfoGainTotal.

(** ** Claims about the tree builder *)

Section TreeBuilderClaims.

Context {V L : Type} `{EqDecision V, EqDecision L}.

Variable gain : DataFrame V → list L → string → result R.

(** C4: on a dataset whose examples all share one label, the builder
    returns the single node [Leaf] with that label, whatever the frame
    holds and however many candidate features are supplied. *)
Theorem ID3_pure_labels_leaf (X : DataFrame V) (y : list L)
    (feats : list string) (l : L) :
  y ≠ [] → Forall (λ c, c = l) y → ID3 gain X y feats = Ok (Leaf l).
Proof.
  intros Hne Hall. destruct y as [| l0 y']; [done |].
  assert (l0 = l) as -> by (now inversion Hall).
  unfold ID3. now apply ID3_rec_pure.
Qed.

(** C5: every recursive split chooses a candidate feature and builds each
    child from the candidates with that feature filtered out;
    consequently, in the tree that [ID3] returns, no feature is a
    splitting feature twice on a root-to-leaf path. *)
Theorem ID3_split_feature_not_reused :
  (∀ (fuel : nat) (X : DataFrame V) (y : list L) (feats : list string)
     (f : string) (children : list (V * tree V L)),
     ID3_rec gain fuel X y feats = Ok (Internal f children) →
     f ∈ feats ∧
     ∃ fuel', fuel = S fuel' ∧
       Forall (λ vc, ∃ Xv yv,
                 subset X y f vc.1 = Ok (Xv, yv) ∧
                 ID3_rec gain fuel' Xv yv (filter (λ g, g ≠ f) feats)
                   = Ok vc.2)
              children) ∧
  (∀ (X : DataFrame V) (y : list L) (feats : list string) (t : tree V L),
     ID3 gain X y feats = Ok t → Forall NoDup (paths t)).
Proof.
  split.
  - intros fuel X y feats f children. apply ID3_rec_Internal.
  - intros X y feats t Hrun. apply ID3_rec_paths in Hrun.
    eapply Forall_impl; [exact Hrun |]. now intros p [Hnd _].
Qed.

End TreeBuilderClaims.

(** ** Running the builder on a concrete dataset *)

Ltac eval_lookup :=
  repeat match goal with
  | |- context [columns ?X !! ?f] =>
      let r := eval vm_compute in (columns X !! f) in
      change (columns X !! f) with r
  end.

Ltac eval_filter :=
  repeat match goal with
  | |- context [filter ?P ?l] =>
      let r := eval vm_compute in (filter P l) in
      change (filter P l) with r
  end.

Ltac step_result := cbn [mbind mret result_bind result_ret mapM].

Ltac run_builder :=
  repeat (progress (step_result; eval_lookup; eval_discrete; eval_filter)).

Section TreeExamples.

Import Titanic.

Local Open Scope R_scope.

Lemma mixed_not_pure : ¬ Forall (λ c, c = survived) [survived; died].
Proof.
  intros Hall. inversion Hall as [| ? ? _ Hrest].
  inversion Hrest. discriminate.
Qed.

Lemma info_gain_mixed_g : info_gain mixed_X' mixed_y "g" = Ok 0.
Proof.
  start_info_gain. rewrite label_entropy_died.
  rewrite (label_entropy_single_class None survived [survived])
    by (first [discriminate | repeat constructor]).
  f_equal. lra.
Qed.

Lemma info_gain_mixed_f : info_gain mixed_X' mixed_y "f" = Ok (ln 2).
Proof.
  rewrite <- (info_gain_agree mixed_X mixed_X' mixed_y "f") by reflexivity.
  exact info_gain_mixed.
Qed.

(** After the split on ["f"] only ["g"] is left to split on. *)
Lemma ID3_mixed_inner :
  ID3_rec info_gain 1
    (mkDataFrame 2 (rows_with "a" ["a"; "a"] <$> columns mixed_X'))
    mixed_y ["g"]
  = Ok (Internal "g" [("u", Leaf survived); ("w", Leaf died)]).
Proof.
  unfold mixed_y. rewrite ID3_rec_split by exact mixed_not_pure.
  cbn [choose_feature best_feature].
  rewrite (info_gain_agree _ mixed_X' _ "g") by reflexivity.
  change [survived; died] with mixed_y. rewrite info_gain_mixed_g.
  unfold subset. run_builder.
  rewrite !ID3_rec_pure by (repeat constructor). step_result.
  reflexivity.
Qed.

(** With [info_gain] as the criterion the builder prefers ["f"], whose
    value [info_gain] reports as [ln 2], to ["g"], reported as 0. *)
Lemma ID3_mixed : ID3 info_gain mixed_X' mixed_y ["f"; "g"] = Ok mixed_tree.
Proof.
  unfold ID3. change (length ["f"; "g"]) with 2%nat. unfold mixed_y.
  rewrite ID3_rec_split by exact mixed_not_pure.
  cbn [choose_feature best_feature].
  change [survived; died] with mixed_y.
  rewrite info_gain_mixed_f, info_gain_mixed_g. step_result.
  destruct (Rlt_dec (ln 2) 0) as [Hlt | _]; [pose proof ln_2_pos; lra |].
  unfold subset. run_builder.
  change [survived; died] with mixed_y.
  rewrite ID3_mixed_inner. step_result. reflexivity.
Qed.

Lemma ID3_pure_labels_leaf_witness :
  [died; died; died] ≠ [] ∧ Forall (λ c, c = died) [died; died; died] ∧
  ID3 info_gain S_X [died; died; died] ["X"; "Y"; "Z"] = Ok (Leaf died).
Proof.
  assert (H1 : [died; died; died] ≠ []) by discriminate.
  assert (H2 : Forall (λ c, c = died) [died; died; died])
    by (repeat constructor).
  exact (conj H1 (conj H2
    (ID3_pure_labels_leaf (L := outcome) info_gain S_X _ ["X"; "Y"; "Z"]
       died H1 H2))).
Defined.

Lemma ID3_split_feature_not_reused_witness :
  ID3 info_gain mixed_X' mixed_y ["f"; "g"] = Ok mixed_tree ∧
  "f" ∈ ["f"; "g"] ∧
  Forall NoDup (paths mixed_tree).
Proof.
  pose proof (ID3_split_feature_not_reused (V := string) (L := outcome)
                info_gain) as [Hsplit Hpaths].
  refine (conj ID3_mixed (conj _ (Hpaths _ _ _ _ ID3_mixed))).
  exact (proj1 (Hsplit 2%nat mixed_X' mixed_y ["f"; "g"] "f" _ ID3_mixed)).
Defined.

End TreeExamples.

(** ** Facts and claims about [batch_train] *)

Section BatchTrainFacts.

Import BatchTrain.

Context {Est Batch Rng : Type}.
Variable clone_est : Est → Est.
Variable partial_fit_est : Est → Batch → list nat → list nat → Est * option exn.
Variable transform : list string → Batch.
Variable RandomState : nat → Rng.
Variable choice : Rng → list nat → nat → result (list nat * Rng).
Variable files : gmap string string.

Lemma partial_fit_effect (self : loc) (X : Batch) (y classes : list nat)
    (w w' : world) (r : result ()) :
  partial_fit partial_fit_est self X y classes w = (r, w') →
  (∀ l, l ≠ self → heap w' !! l = heap w !! l) ∧
  (is_Some (heap w !! self) → is_Some (heap w' !! self)) ∧
  (r = Ok () → trace w' = trace w ++ [EvPartialFit self]) ∧
  (trace w' = trace w ∨ trace w' = trace w ++ [EvPartialFit self]).
Proof.
  unfold partial_fit. destruct (heap w !! self) as [est |] eqn:Hself.
  - destruct (partial_fit_est est X y classes) as [est' err].
    intros [= <- <-]. cbn [heap trace]. split; [| split; [| split]].
    + intros l Hl. now rewrite lookup_insert_ne.
    + intros _. rewrite lookup_insert_eq. eauto.
    + reflexivity.
    + now right.
  - intros [= <- <-]. split; [| split; [| split]]; auto.
    + now rewrite Hself.
    + discriminate.
Qed.

Lemma train_loop_effect (iterations : nat) (c_clf : loc) (idx : list nat)
    (fnames : list string) (labels : list nat) (batchsize : nat) :
  ∀ (rng : Rng) (w w' : world) (r : result ()),
    train_loop partial_fit_est transform choice files iterations c_clf rng
      idx fnames labels batchsize w = (r, w') →
    (∀ l, l ≠ c_clf → heap w' !! l = heap w !! l) ∧
    (is_Some (heap w !! c_clf) → is_Some (heap w' !! c_clf)) ∧
    ∃ k, k ≤ iterations ∧
         trace w' = trace w ++ repeat (EvPartialFit c_clf) k ∧
         (r = Ok () → k = iterations).
Proof.
  induction iterations as [| n IH]; intros rng w w' r Hrun.
  - injection Hrun as <- <-. repeat split; auto.
    exists 0. rewrite app_nil_r. auto.
  - cbn [train_loop] in Hrun. unfold mbind, M_bind, lift in Hrun.
    assert (Hstop : ∀ e, (Raise e, w) = (r, w') →
      (∀ l, l ≠ c_clf → heap w' !! l = heap w !! l) ∧
      (is_Some (heap w !! c_clf) → is_Some (heap w' !! c_clf)) ∧
      ∃ k, k ≤ S n ∧ trace w' = trace w ++ repeat (EvPartialFit c_clf) k ∧
           (r = Ok () → k = S n)).
    { intros e [= <- <-]. split; [| split]; auto.
      exists 0. rewrite app_nil_r. repeat split; [lia | discriminate]. }
    destruct (choice rng idx batchsize) as [[rnd_idx rng'] | e]; [| eauto].
    destruct (mapM (read_document files fnames) rnd_idx) as [documents | e];
      [| eauto].
    destruct (take_labels labels rnd_idx) as [batch_labels | e]; [| eauto].
    destruct (partial_fit partial_fit_est c_clf (transform documents)
                batch_labels [0; 1] w) as [r1 w1] eqn:Hfit.
    apply partial_fit_effect in Hfit as (Hframe1 & Hsome1 & Hok1 & Htrace1).
    destruct r1 as [[] | e].
    + apply IH in Hrun as (Hframe & Hsome & k & Hk & Htrace & Hok).
      split; [| split].
      * intros l Hl. rewrite Hframe, Hframe1 by assumption. reflexivity.
      * auto.
      * exists (S k). split; [lia |]. split; [| intros Hr; f_equal; auto].
        rewrite Htrace, Hok1 by reflexivity.
        rewrite <- app_assoc. reflexivity.
    + injection Hrun as <- <-. split; [| split]; auto.
      destruct Htrace1 as [Htr | Htr].
      * exists 0. rewrite app_nil_r. repeat split; [lia | auto | discriminate].
      * exists 1. repeat split; [lia | exact Htr | discriminate].
Qed.

(** The effect of a whole call on the world. *)
Lemma batch_train_effect (clf : loc) (fnames : list string)
    (labels : list nat) (iterations batchsize random_seed : nat)
    (w w' : world) (r : result loc) :
  batch_train clone_est partial_fit_est transform RandomState choice files
    clf fnames labels iterations batchsize random_seed w = (r, w') →
  (∀ l, l ∈ dom (heap w) → heap w' !! l = heap w !! l) ∧
  heap w' !! clf = heap w !! clf ∧
  (∀ self, EvPartialFit self ∈ trace w' →
     EvPartialFit self ∈ trace w ∨ (self ≠ clf ∧ self ∉ dom (heap w))) ∧
  (∀ c, r = Ok c →
     c ≠ clf ∧ (c ∉ dom (heap w)) ∧ is_Some (heap w' !! c) ∧
     trace w' = trace w ++ EvClone clf c :: repeat (EvPartialFit c) iterations).
Proof.
  unfold batch_train, mbind, M_bind, clone. intros Hrun.
  destruct (heap w !! clf) as [est |] eqn:Hclf.
  - set (c := fresh (dom (heap w))) in *.
    assert (Hfresh : c ∉ dom (heap w)) by apply is_fresh.
    assert (Hne : c ≠ clf).
    { intros ->. apply Hfresh, elem_of_dom. eauto. }
    match type of Hrun with
    | context [train_loop ?a ?b ?c ?d ?e ?f ?g ?h ?i ?j ?k ?w0] =>
        destruct (train_loop a b c d e f g h i j k w0) as [r1 w1] eqn:Hloop
    end.
    apply train_loop_effect in Hloop as (Hframe & Hsome & k & Hk & Htrace & Hok).
    cbn [heap trace] in Hframe, Hsome, Htrace.
    assert (Hw1 : w' = w1) by (destruct r1; now injection Hrun). subst w1.
    assert (Hold : ∀ l, l ∈ dom (heap w) → heap w' !! l = heap w !! l).
    { intros l Hl. rewrite Hframe by (intros ->; contradiction).
      apply lookup_insert_ne. intros ->. contradiction. }
    split; [exact Hold |]. split; [| split].
    + rewrite <- Hclf. apply Hold, elem_of_dom. eauto.
    + intros self Hin. rewrite Htrace, <- app_assoc in Hin.
      apply elem_of_app in Hin as [Hin | Hin]; [now left |].
      apply elem_of_cons in Hin as [[=] | Hin].
      apply list_elem_of_In, repeat_spec in Hin. injection Hin as ->.
      right. split; assumption.
    + intros c' Hr. destruct r1 as [[] | e]; [| now injection Hrun as <-].
      injection Hrun as <-. injection Hr as <-.
      split; [exact Hne |]. split; [exact Hfresh |]. split.
      * apply Hsome. rewrite lookup_insert_eq. eauto.
      * rewrite Htrace, <- app_assoc, (Hok eq_refl). reflexivity.
  - injection Hrun as <- <-. split; [auto |]. split; [auto |].
    split; [auto |]. discriminate.
Qed.

(** C10: [batch_train] leaves the estimator passed as [clf] unchanged, as
    it leaves every object that existed before the call; each
    [partial_fit] it issues has as receiver an object that is not [clf]
    and did not exist before; and when it returns, it returns the
    reference of the clone of [clf], a new object that received exactly
    [iterations] calls of [partial_fit]. *)
Theorem batch_train_leaves_clf_unchanged (clf : loc) (fnames : list string)
    (labels : list nat) (iterations batchsize random_seed : nat)
    (w w' : world) (r : result loc) :
  batch_train clone_est partial_fit_est transform RandomState choice files
    clf fnames labels iterations batchsize random_seed w = (r, w') →
  (∀ l, l ∈ dom (heap w) → heap w' !! l = heap w !! l) ∧
  heap w' !! clf = heap w !! clf ∧
  (∀ self, EvPartialFit self ∈ trace w' →
     EvPartialFit self ∈ trace w ∨ (self ≠ clf ∧ self ∉ dom (heap w))) ∧
  (∀ c, r = Ok c →
     c ≠ clf ∧ (c ∉ dom (heap w)) ∧ is_Some (heap w' !! c) ∧
     trace w' = trace w ++ EvClone clf c :: repeat (EvPartialFit c) iterations).
Proof. apply batch_train_effect. Qed.

End BatchTrainFacts.

Section BatchTrainRun.

Import BatchTrain BatchTrainExample.

(** The example call returns a new reference and has trained only it. *)
Lemma run_value :
  run = (Ok 2%positive,
         mkWorld {[ sgd := 7; 2%positive := 3 ]}
                 [EvClone sgd 2%positive; EvPartialFit 2%positive;
                  EvPartialFit 2%positive; EvPartialFit 2%positive]).
Proof. vm_compute. reflexivity. Qed.

Lemma batch_train_leaves_clf_unchanged_witness :
  run = (Ok 2%positive,
         mkWorld {[ sgd := 7; 2%positive := 3 ]}
                 [EvClone sgd 2%positive; EvPartialFit 2%positive;
                  EvPartialFit 2%positive; EvPartialFit 2%positive]) ∧
  ({[ sgd := 7; 2%positive := 3 ]} : gmap loc nat) !! sgd = heap w0 !! sgd.
Proof.
  refine (conj run_value _).
  exact (proj1 (proj2 (batch_train_leaves_clf_unchanged clone_est
    partial_fit_est transform RandomState choice files sgd fnames labels
    3 2 1 w0 _ _ run_value))).
Defined.

End BatchTrainRun.

(** ** Further properties of [info_gain] *)

Section EvaluatorErrors.

Context {V L : Type} `{EqDecision V, EqDecision L}.

Local Open Scope R_scope.

(** A selection that succeeds has found a label for every row holding the
    value. *)
Lemma select_labels_Ok_lookup (col : list V) (y : list L) (value : V) :
  ∀ (start : nat) (new_y : list L) (i : nat),
    select_labels start col y value = Ok new_y →
    col !! i = Some value → is_Some (y !! (start + i)%nat).
Proof.
  induction col as [| d col IH]; intros start new_y i Hrun Hi;
    [discriminate |].
  cbn [select_labels] in Hrun. destruct i as [| i'].
  - injection Hi as ->. rewrite decide_True in Hrun by reflexivity.
    unfold getitem in Hrun. rewrite Nat.add_0_r.
    destruct (y !! start); [eauto | discriminate].
  - cbn in Hi. replace (start + S i')%nat with (S start + i')%nat by lia.
    destruct (decide (d = value)).
    + destruct (getitem y start); [| discriminate].
      cbn [mbind result_bind] in Hrun.
      destruct (select_labels (S start) col y value) as [rest |] eqn:Hrest;
        [| discriminate].
      eapply IH; eauto.
    + eapply IH; eauto.
Qed.

(** A selection can only fail with [KeyError], and only when [y] is too
    short for the column. *)
Lemma select_labels_Raise (col : list V) (y : list L) (value : V) :
  ∀ (start : nat) (e : exn),
    select_labels start col y value = Raise e →
    e = KeyError ∧ (length y < start + length col)%nat.
Proof.
  induction col as [| d col IH]; intros start e Hrun; [discriminate |].
  cbn [select_labels] in Hrun. cbn [length].
  destruct (decide (d = value)).
  - unfold getitem in Hrun. destruct (y !! start) as [yi |] eqn:Hyi.
    + cbn [mbind result_bind] in Hrun.
      destruct (select_labels (S start) col y value) as [rest |] eqn:Hrest;
        [discriminate |].
      cbn [mbind result_bind] in Hrun. injection Hrun as <-.
      apply IH in Hrest as [-> Hlen]. split; [reflexivity | lia].
    + cbn [mbind result_bind] in Hrun. injection Hrun as <-.
      apply lookup_ge_None in Hyi. split; [reflexivity | lia].
  - apply IH in Hrun as [-> Hlen]. split; [reflexivity | lia].
Qed.

Lemma gain_loop_Ok_inv (n : nat) (col : list V) (y : list L)
    (values : list V) :
  ∀ (gain r : R),
    gain_loop n col y values gain = Ok r →
    (values ≠ [] → (0 < n)%nat) ∧
    ∀ v, v ∈ values → is_Ok (select_labels 0 col y v).
Proof.
  induction values as [| value rest IH]; intros gain r Hrun.
  - split; [done |]. intros v Hv. inversion Hv.
  - cbn [gain_loop] in Hrun.
    destruct (select_labels 0 col y value) as [new_y |] eqn:Hsel;
      [| discriminate].
    cbn [mbind result_bind] in Hrun.
    destruct n as [| n']; [discriminate |]. cbn [py_div mbind result_bind] in Hrun.
    apply IH in Hrun as [_ Hall]. split; [lia |].
    intros v [-> | Hv]%elem_of_cons; [exists new_y; exact Hsel | auto].
Qed.

Lemma gain_loop_Raise (n : nat) (col : list V) (y : list L)
    (values : list V) :
  ∀ (gain : R) (e : exn),
    gain_loop n col y values gain = Raise e →
    (e = KeyError ∧ (length y < length col)%nat) ∨
    (e = ZeroDivisionError ∧ n = 0%nat ∧ values ≠ []).
Proof.
  induction values as [| value rest IH]; intros gain e Hrun; [discriminate |].
  cbn [gain_loop] in Hrun.
  destruct (select_labels 0 col y value) as [new_y |] eqn:Hsel.
  - cbn [mbind result_bind] in Hrun. destruct n as [| n'].
    + cbn [py_div mbind result_bind] in Hrun. injection Hrun as <-.
      right. repeat split. discriminate.
    + cbn [py_div mbind result_bind] in Hrun.
      apply IH in Hrun as [Hkey | (_ & [=] & _)]. now left.
  - cbn [mbind result_bind] in Hrun. injection Hrun as <-.
    apply select_labels_Raise in Hsel as [-> Hlen]. left. split; [done | lia].
Qed.

(** X1: [info_gain] returns a value exactly when the feature is a column
    of the frame and either that column is empty, or the frame has at
    least one row and [y] holds a label for every entry of the column. *)
Theorem info_gain_succeeds_iff (X : DataFrame V) (y : list L)
    (feature : string) :
  is_Ok (info_gain X y feature) ↔
  ∃ col, columns X !! feature = Some col ∧
         (col = [] ∨ ((0 < nrows X)%nat ∧ (length col <= length y)%nat)).
Proof.
  unfold info_gain, getcol. split.
  - intros [r Hrun]. destruct (columns X !! feature) as [col |];
      [| discriminate].
    cbn [mbind result_bind] in Hrun. exists col. split; [reflexivity |].
    destruct col as [| d col'] using rev_ind; [now left | right].
    apply gain_loop_Ok_inv in Hrun as [Hn Hall].
    assert (Hin : d ∈ py_set (col' ++ [d])).
    { apply elem_of_remove_dups, elem_of_app. right. apply list_elem_of_here. }
    split.
    + apply Hn. intros Hnil. rewrite Hnil in Hin. inversion Hin.
    + destruct (Hall d Hin) as [new_y Hsel].
      eapply (select_labels_Ok_lookup _ _ _ _ _ (length col')) in Hsel.
      * destruct Hsel as [l Hl]. apply lookup_lt_Some in Hl.
        rewrite length_app. simpl in *. lia.
      * rewrite lookup_app_r by lia. now rewrite Nat.sub_diag.
  - intros (col & -> & [-> | [Hn Hlen]]); cbn [mbind result_bind].
    + now exists 0.
    + now apply gain_loop_ok.
Qed.

(** X2: [info_gain] raises nothing but [KeyError] and
    [ZeroDivisionError].  A [KeyError] means that the feature is not a
    column or that [y] has fewer labels than the column has entries; a
    [ZeroDivisionError] means that the frame reports zero rows although
    the column is not empty. *)
Theorem info_gain_raises (X : DataFrame V) (y : list L) (feature : string)
    (e : exn) :
  info_gain X y feature = Raise e →
  (e = KeyError ∧
     (columns X !! feature = None ∨
      ∃ col, columns X !! feature = Some col ∧ (length y < length col)%nat)) ∨
  (e = ZeroDivisionError ∧ nrows X = 0%nat ∧
     ∃ col, columns X !! feature = Some col ∧ col ≠ []).
Proof.
  unfold info_gain, getcol. intros Hrun.
  destruct (columns X !! feature) as [col |] eqn:Hcol.
  - cbn [mbind result_bind] in Hrun.
    apply gain_loop_Raise in Hrun as [[-> Hlen] | (-> & Hn & Hne)].
    + left. split; [reflexivity |]. right. eauto.
    + right. split; [reflexivity |]. split; [exact Hn |].
      exists col. split; [reflexivity |]. intros ->. now apply Hne.
  - cbn [mbind result_bind] in Hrun. injection Hrun as <-.
    left. split; [reflexivity |]. now left.
Qed.

End EvaluatorErrors.

Section EvaluatorMore.

Context {V L : Type} `{EqDecision V, EqDecision L}.

Local Open Scope R_scope.

Lemma select_labels_agree (col : list V) (y y' : list L) (value : V) :
  ∀ start : nat,
    (∀ i, (i < length col)%nat → y !! (start + i)%nat = y' !! (start + i)%nat) →
    select_labels start col y value = select_labels start col y' value.
Proof.
  induction col as [| d col IH]; intros start Hagree; [reflexivity |].
  cbn [select_labels]. rewrite (IH (S start)).
  - unfold getitem. specialize (Hagree 0%nat ltac:(simpl; lia)).
    rewrite Nat.add_0_r in Hagree. now rewrite Hagree.
  - intros i Hi. replace (S start + i)%nat with (start + S i)%nat by lia.
    apply Hagree. simpl. lia.
Qed.

Lemma gain_loop_agree (n : nat) (col : list V) (y y' : list L)
    (values : list V) :
  (∀ i, (i < length col)%nat → y !! i = y' !! i) →
  ∀ gain, gain_loop n col y values gain = gain_loop n col y' values gain.
Proof.
  intros Hagree. induction values as [| value rest IH]; intros gain;
    [reflexivity |].
  cbn [gain_loop]. rewrite (select_labels_agree col y y' value 0) by exact Hagree.
  destruct (select_labels 0 col y' value); [| reflexivity].
  cbn [mbind result_bind]. destruct (py_div _ n); [| reflexivity].
  cbn [mbind result_bind]. apply IH.
Qed.

(** X3: [info_gain] reads [y] only at the positions of the column's
    entries: two label sequences that agree on their first [len(col)]
    entries give the same result, values and exceptions alike. *)
Theorem info_gain_reads_prefix_of_y (X : DataFrame V) (y y' : list L)
    (feature : string) (col : list V) :
  columns X !! feature = Some col →
  take (length col) y = take (length col) y' →
  info_gain X y feature = info_gain X y' feature.
Proof.
  intros Hcol Htake. unfold info_gain, getcol. rewrite Hcol.
  cbn [mbind result_bind]. apply gain_loop_agree.
  intros i Hi. rewrite <- (lookup_take_lt y (length col) i) by exact Hi.
  rewrite <- (lookup_take_lt y' (length col) i) by exact Hi.
  now rewrite Htake.
Qed.

(** X4: when the feature takes a single value on every row of a
    non-empty, well-formed dataset, [info_gain] returns the entropy of the
    whole label column, in natural logarithms. *)
Theorem info_gain_constant_feature (X : DataFrame V) (y : list L)
    (feature : string) (col : list V) (x : V) :
  columns X !! feature = Some col → length col = nrows X →
  length y = nrows X → (0 < nrows X)%nat → Forall (λ d, d = x) col →
  info_gain X y feature = Ok (label_entropy None y).
Proof.
  intros Hcol Hlen Hy Hn Hall. unfold info_gain, getcol. rewrite Hcol.
  cbn [mbind result_bind]. rewrite gain_loop_sum by lia.
  rewrite (py_set_all x) by (try assumption; intros ->; simpl in Hlen; lia).
  cbn [map np_sum]. rewrite rows_with_all by (try assumption; lia).
  rewrite Hy. f_equal. field. apply not_0_INR. lia.
Qed.

End EvaluatorMore.

Section EvaluatorPurity.

Context {V L : Type} `{EqDecision V, EqDecision L}.

Local Open Scope R_scope.

(** The entropy of a non-empty label list as a sum over its classes. *)
Lemma label_entropy_closed (ys : list L) :
  ys ≠ [] →
  label_entropy None ys
  = np_sum (map (λ c, entr (INR (count_class c ys) / INR (length ys)))
                (py_set ys)).
Proof.
  intros Hne. unfold label_entropy. rewrite label_entropy_total.
  set (N := INR (length ys)).
  assert (HN : 0 < N).
  { apply lt_0_INR. destruct ys; [done | simpl; lia]. }
  unfold entropy.
  assert (Hone : np_sum (map (λ c, c / N) (class_counts ys)) = 1).
  { rewrite (np_sum_scaled _ (λ c, c) (/ N)) by (intros c; lra).
    rewrite map_id, label_entropy_total. fold N. field. lra. }
  rewrite Hone. unfold class_counts. rewrite !map_map.
  f_equal. apply map_ext. intros c. f_equal. field. lra.
Qed.

Lemma count_class_le_length (c : L) (ys : list L) :
  (count_class c ys <= length ys)%nat.
Proof.
  induction ys as [| d ys IH]; simpl; [lia |].
  destruct (decide (d = c)); lia.
Qed.

Lemma count_class_pos (c : L) (ys : list L) :
  c ∈ ys → (0 < count_class c ys)%nat.
Proof.
  induction ys as [| d ys IH]; intros Hin; [inversion Hin |].
  simpl. destruct (decide (d = c)) as [_ | Hne]; [lia |].
  apply elem_of_cons in Hin as [-> | Hin]; [done | auto].
Qed.


Lemma count_class_lt_length (a b : L) (ys : list L) :
  b ∈ ys → a ≠ b → (count_class a ys < length ys)%nat.
Proof.
  induction ys as [| d ys IH]; intros Hin Hne; [inversion Hin |].
  simpl. pose proof (count_class_le_length a ys).
  apply elem_of_cons in Hin as [<- | Hin].
  - rewrite decide_False by congruence. lia.
  - specialize (IH Hin Hne). destruct (decide (d = a)); lia.
Qed.

Lemma entr_pos_strict (p : R) : 0 < p → p < 1 → 0 < entr p.
Proof.
  intros H0 H1. rewrite entr_pos by assumption.
  assert (ln p < 0) by (rewrite <- ln_1; now apply ln_increasing).
  nra.
Qed.

Lemma class_ratio_bounds (c : L) (ys : list L) :
  0 <= INR (count_class c ys) / INR (length ys) <= 1.
Proof.
  pose proof (count_class_le_length c ys) as Hle. apply le_INR in Hle.
  pose proof (pos_INR (count_class c ys)).
  split.
  - unfold Rdiv. apply Rmult_le_pos; [assumption |].
    apply Rinv_nonneg, pos_INR.
  - apply ratio_le_1; assumption.
Qed.

(** Two different labels make the entropy strictly positive. *)
Lemma label_entropy_mixed_pos (a b : L) (ys : list L) :
  a ∈ ys → b ∈ ys → a ≠ b → 0 < label_entropy None ys.
Proof.
  intros Ha Hb Hab. rewrite label_entropy_closed by (intros ->; inversion Ha).
  assert (HN : 0 < INR (length ys)).
  { apply lt_0_INR. destruct ys; [inversion Ha | simpl; lia]. }
  set (t := entr (INR (count_class a ys) / INR (length ys))).
  assert (Ht : 0 < t).
  { apply entr_pos_strict.
    - apply Rdiv_lt_0_compat; [| exact HN].
      apply lt_0_INR, count_class_pos, Ha.
    - apply (Rmult_lt_reg_r (INR (length ys))); [exact HN |].
      unfold Rdiv. rewrite Rmult_assoc, Rinv_l, Rmult_1_r, Rmult_1_l by lra.
      apply lt_INR. now apply (count_class_lt_length a b). }
  apply (Rlt_le_trans _ t); [exact Ht |].
  apply np_sum_ge_elem.
  - rewrite Forall_map. apply Forall_forall. intros c _. simpl.
    apply entr_nonneg, class_ratio_bounds.
  - apply list_elem_of_In, in_map_iff. exists a. split; [reflexivity |].
    apply list_elem_of_In, elem_of_remove_dups, Ha.
Qed.

(** The entropy vanishes exactly on the label lists with at most one
    class. *)
Lemma label_entropy_zero_iff (ys : list L) :
  label_entropy None ys = 0 ↔ ∀ a b, a ∈ ys → b ∈ ys → a = b.
Proof.
  split.
  - intros Hzero a b Ha Hb. destruct (decide (a = b)) as [| Hne]; [done |].
    pose proof (label_entropy_mixed_pos a b ys Ha Hb Hne). lra.
  - intros Hone. destruct ys as [| l ys']; [unfold label_entropy, entropy; simpl; lra |].
    apply (label_entropy_single_class None l); [discriminate |].
    apply Forall_forall. intros c Hc. apply Hone; [exact Hc |].
    apply list_elem_of_here.
Qed.

Lemma np_sum_zero_iff (xs : list R) :
  Forall (λ x, 0 <= x) xs → np_sum xs = 0 ↔ Forall (λ x, x = 0) xs.
Proof.
  induction 1 as [| x xs Hx Hxs IH]; cbn [np_sum].
  - split; [constructor | reflexivity].
  - pose proof (np_sum_nonneg xs Hxs). split.
    + intros Hsum. constructor; [lra |]. apply IH. lra.
    + intros Hall. inversion Hall as [| ? ? -> Hrest]; subst.
      apply IH in Hrest. lra.
Qed.

(** X5: on a non-empty, well-formed dataset [info_gain] returns 0 exactly
    when the labels are constant within every partition, that is, when
    rows with equal feature values never carry different labels. *)
Theorem info_gain_zero_iff_pure (X : DataFrame V) (y : list L)
    (feature : string) (col : list V) :
  columns X !! feature = Some col → length col = nrows X →
  length y = nrows X → (0 < nrows X)%nat →
  info_gain X y feature = Ok 0 ↔
  ∀ x a b, a ∈ rows_with x col y → b ∈ rows_with x col y → a = b.
Proof.
  intros Hcol Hlen Hy Hn. unfold info_gain, getcol. rewrite Hcol.
  cbn [mbind result_bind]. rewrite gain_loop_sum by lia.
  set (term := λ x, let Sx := rows_with x col y in
                    INR (length Sx) / INR (nrows X) * label_entropy None Sx).
  assert (HN : 0 < INR (nrows X)) by now apply lt_0_INR.
  assert (Hnonneg : Forall (λ t, 0 <= t) (map term (py_set col))).
  { rewrite Forall_map. apply Forall_forall. intros x _. unfold term. simpl.
    apply Rmult_le_pos; [| apply label_entropy_nonneg].
    unfold Rdiv. apply Rmult_le_pos; [apply pos_INR |].
    left. now apply Rinv_0_lt_compat. }
  split.
  - intros [= Hsum] x a b Ha Hb.
    assert (Hzero : np_sum (map term (py_set col)) = 0) by lra.
    apply np_sum_zero_iff in Hzero; [| exact Hnonneg].
    rewrite Forall_map, Forall_forall in Hzero.
    assert (Hx : x ∈ col).
    { destruct (decide (x ∈ col)) as [| Hnin]; [done |]. exfalso.
      clear -Hnin Ha. revert y Ha.
      induction col as [| d col' IH]; intros [| l y'] Ha;
        try (inversion Ha; fail).
      cbn [rows_with] in Ha. rewrite decide_False in Ha.
      - eapply IH; [| exact Ha]. intros Hin. apply Hnin.
        now apply list_elem_of_further.
      - intros ->. apply Hnin, list_elem_of_here. }
    specialize (Hzero x ltac:(now apply elem_of_remove_dups)).
    unfold term in Hzero. simpl in Hzero.
    apply Rmult_integral in Hzero as [Hw | HE].
    + exfalso. assert (Hpos : 0 < INR (length (rows_with x col y))).
      { apply lt_0_INR. destruct (rows_with x col y); [inversion Ha |].
        simpl. lia. }
      assert (0 < INR (length (rows_with x col y)) / INR (nrows X))
        by now apply Rdiv_lt_0_compat.
      lra.
    + now apply (label_entropy_zero_iff (rows_with x col y)).
  - intros Hpure. f_equal.
    assert (Hzero : np_sum (map term (py_set col)) = 0); [| lra].
    apply np_sum_zero_iff; [exact Hnonneg |].
    rewrite Forall_map. apply Forall_forall. intros x _. unfold term.
    cbv beta zeta.
    rewrite (proj2 (label_entropy_zero_iff _) (Hpure x)). lra.
Qed.

End EvaluatorPurity.

Section EvaluatorBound.

Context {V L : Type} `{EqDecision V, EqDecision L}.

Local Open Scope R_scope.










Lemma rows_with_elem {A : Type} (x : V) (col : list V) (ys : list A) (a : A) :
  a ∈ rows_with x col ys → a ∈ ys ∧ x ∈ col.
Proof.
  revert ys. induction col as [| d col IH]; intros [| l ys] Ha;
    try (inversion Ha; fail).
  cbn [rows_with] in Ha. destruct (decide (d = x)) as [-> | Hne].
  - apply elem_of_cons in Ha as [-> | Ha].
    + split; apply list_elem_of_here.
    + apply IH in Ha as [? ?]. split; now apply list_elem_of_further.
  - apply IH in Ha as [? ?]. split; now apply list_elem_of_further.
Qed.




End EvaluatorBound.

Section EvaluatorInvariance.

Context {V L : Type} `{EqDecision V, EqDecision L}.

Local Open Scope R_scope.








End EvaluatorInvariance.

Section EvaluatorRenaming.

Context {V V' L L' : Type} `{EqDecision V, EqDecision V', EqDecision L,
                            EqDecision L'}.

Local Open Scope R_scope.







End EvaluatorRenaming.

(** ** Properties of the Gini index *)

Section GiniFacts.

Local Open Scope R_scope.






End GiniFacts.

(** ** The feature-ranking cell *)

Section FeatureRankingFacts.

Local Open Scope R_scope.

#[local] Instance value_le_dec (xs : list R) (i j : nat) :
  Decision (value_le xs i j) := Rle_dec _ _.

#[local] Instance value_le_total (xs : list R) : Total (value_le xs).
Proof. intros i j. unfold value_le. lra. Qed.

Lemma argsort_Permutation (xs : list R) :
  argsort xs ≡ₚ seq 0 (length xs).
Proof. unfold argsort. apply merge_sort_Permutation. Qed.

Lemma argsort_Sorted (xs : list R) : Sorted (value_le xs) (argsort xs).
Proof. unfold argsort. apply (Sorted_merge_sort (value_le xs)). Qed.

Lemma zip_as_lookups (columns : list string) (importances : list R) :
  length importances = length columns →
  (λ i, (nth i columns EmptyString, nth i importances 0))
    <$> seq 0 (length columns)
  = zip columns importances.
Proof.
  intros Hlen. apply list_eq. intros i.
  rewrite list_lookup_fmap, lookup_zip_with.
  destruct (decide (i < length columns)%nat) as [Hi | Hi].
  - rewrite lookup_seq_lt by exact Hi. cbn.
    destruct (lookup_lt_is_Some_2 columns i Hi) as [c Hc].
    destruct (lookup_lt_is_Some_2 importances i ltac:(lia)) as [v Hv].
    rewrite Hc, Hv. cbn.
    now rewrite (nth_lookup_Some _ _ _ _ Hc), (nth_lookup_Some _ _ _ _ Hv).
  - rewrite lookup_seq_ge by lia. cbn.
    rewrite (lookup_ge_None_2 columns i) by lia. reflexivity.
Qed.

(** X14: when the forest reports one importance per column, the ranking
    cell prints one line per column, numbered from 1; the printed
    (column, importance) pairs are exactly the pairs of the frame, each
    once; and the printed importances never increase down the list. *)
Theorem feature_ranking_sorted (columns : list string)
    (importances : list R) :
  length importances = length columns →
  ∃ out, feature_ranking columns importances = Ok out ∧
         (λ t, t.1.1) <$> out = seq 1 (length columns) ∧
         (λ t, (t.1.2, t.2)) <$> out ≡ₚ zip columns importances ∧
         Sorted (λ a b, b <= a) ((λ t, t.2) <$> out).
Proof.
  intros Hlen. unfold feature_ranking.
  set (indices := reverse (argsort importances)).
  assert (Hperm : indices ≡ₚ seq 0 (length columns)).
  { unfold indices. rewrite reverse_Permutation, argsort_Permutation.
    now rewrite Hlen. }
  assert (Hilen : length indices = length columns).
  { rewrite Hperm. apply length_seq. }
  assert (Hrange : ∀ i, i ∈ indices → (i < length columns)%nat).
  { intros i Hi. rewrite Hperm in Hi. apply elem_of_seq in Hi. lia. }
  set (g := λ f : nat,
              i ← getidx indices f;
              name ← getidx columns i;
              imp ← getidx importances i;
              Ok (f + 1, name, imp)%nat).
  assert (Hg : ∀ f i, indices !! f = Some i →
            g f = Ok ((f + 1)%nat, nth i columns EmptyString,
                      nth i importances 0)).
  { intros f i Hf. unfold g, getidx. rewrite Hf. cbn [mbind result_bind].
    pose proof (Hrange i (list_elem_of_lookup_2 _ _ _ Hf)) as Hi.
    destruct (lookup_lt_is_Some_2 columns i Hi) as [c Hc].
    destruct (lookup_lt_is_Some_2 importances i ltac:(lia)) as [v Hv].
    rewrite Hc, Hv. cbn [mbind result_bind].
    now rewrite (nth_lookup_Some _ _ _ _ Hc), (nth_lookup_Some _ _ _ _ Hv). }
  destruct (mapM_result_is_Ok g (seq 0 (length columns))) as [out Hout].
  { intros f Hf. apply elem_of_seq in Hf.
    destruct (lookup_lt_is_Some_2 indices f ltac:(lia)) as [i Hi].
    rewrite (Hg f i Hi). now eexists. }
  exists out. split; [exact Hout |].
  apply mapM_result_Ok in Hout.
  assert (Hrows : Forall2 (λ i t, ∃ f, t = ((f + 1)%nat, nth i columns EmptyString,
                                          nth i importances 0)
                                     ∧ indices !! f = Some i) indices out).
  { apply Forall2_same_length_lookup. split.
    - rewrite Hilen, <- (Forall2_length _ _ _ Hout). now rewrite length_seq.
    - intros f i t Hi Ht.
      assert (Hf : seq 0 (length columns) !! f = Some f).
      { apply lookup_seq_lt. apply lookup_lt_Some in Hi. lia. }
      pose proof (Forall2_lookup_lr _ _ _ _ _ _ Hout Hf Ht) as Hgf.
      cbv beta in Hgf. rewrite (Hg f i Hi) in Hgf. injection Hgf as <-. eauto. }
  assert (Hpairs : (λ t, (t.1.2, t.2)) <$> out
                   = (λ i, (nth i columns EmptyString, nth i importances 0))
                       <$> indices).
  { clear -Hrows. induction Hrows as [| i t idxs ts (f & -> & _) _ IH];
      [reflexivity |]. cbn. now rewrite IH. }
  split; [| split].
  - apply list_eq. intros f. rewrite list_lookup_fmap.
    destruct (out !! f) as [t |] eqn:Ht; cbn.
    + assert (Hf : (f < length columns)%nat).
      { apply lookup_lt_Some in Ht.
        rewrite <- (Forall2_length _ _ _ Hout), length_seq in Ht. lia. }
      assert (Hsf : seq 0 (length columns) !! f = Some f)
        by now apply lookup_seq_lt.
      pose proof (Forall2_lookup_lr _ _ _ _ _ _ Hout Hsf Ht) as Hgf.
      destruct (lookup_lt_is_Some_2 indices f ltac:(lia)) as [i Hi].
      cbv beta in Hgf. rewrite (Hg _ i Hi) in Hgf. injection Hgf as <-. cbn.
      rewrite lookup_seq_lt by exact Hf. f_equal. lia.
    + symmetry. apply lookup_seq_ge. apply lookup_ge_None in Ht.
      rewrite <- (Forall2_length _ _ _ Hout), length_seq in Ht. lia.
  - rewrite Hpairs, Hperm. now rewrite zip_as_lookups.
  - replace ((λ t, t.2) <$> out)
      with ((λ i, nth i importances 0) <$> indices).
    2:{ clear -Hrows. induction Hrows as [| i t idxs ts (f & -> & _) _ IH];
          [reflexivity |]. cbn. now rewrite IH. }
    apply (Sorted_fmap _ (flip (value_le importances))).
    + intros i j Hij. exact Hij.
    + unfold indices. apply Sorted_reverse, argsort_Sorted.
Qed.

End FeatureRankingFacts.

(** ** The three regions of the hand-made tree *)

Section RegionFacts.

Local Open Scope R_scope.

Variables (bmi_split ltg_split : R).

Lemma column_Ok (data : list (list R)) (j : nat) :
  (∀ row, row ∈ data → (j < length row)%nat) →
  ∃ col, column data j = Ok col ∧ length col = length data.
Proof.
  induction data as [| row data IH]; intros Hrows.
  - now exists [].
  - destruct IH as (col & Hcol & Hlen);
      [intros r Hr; now apply Hrows, list_elem_of_further |].
    destruct (lookup_lt_is_Some_2 row j) as [x Hx];
      [apply Hrows, list_elem_of_here |].
    exists (x :: col). unfold column, getidx in *. simpl.
    rewrite Hx. cbn [mbind result_bind]. rewrite Hcol.
    cbn [mbind mret result_bind result_ret]. split; [reflexivity |].
    simpl. now rewrite Hlen.
Qed.

Lemma four_way_split {A : Type} (v : A) (a b c d y : list A) :
  a ++ b ++ c ++ d ≡ₚ y →
  (v :: a) ++ b ++ c ++ d ≡ₚ v :: y ∧
  a ++ (v :: b) ++ c ++ d ≡ₚ v :: y ∧
  a ++ b ++ (v :: c) ++ d ≡ₚ v :: y ∧
  a ++ b ++ c ++ (v :: d) ≡ₚ v :: y.
Proof.
  intros Hperm. rewrite <- Hperm. repeat split.
  - reflexivity.
  - symmetry. apply Permutation_middle.
  - cbn [app]. rewrite <- (Permutation_middle b (c ++ d) v).
    symmetry. apply Permutation_middle.
  - cbn [app]. rewrite <- (Permutation_middle c d v).
    rewrite <- (Permutation_middle b (c ++ d) v).
    symmetry. apply Permutation_middle.
Qed.

Lemma regions_cover (bmi ltg y : list R) :
  length bmi = length y → length ltg = length y →
  masked y (and_mask (gt_mask bmi bmi_split) (gt_mask ltg ltg_split))
  ++ masked y (and_mask (le_mask bmi bmi_split) (gt_mask ltg ltg_split))
  ++ masked y (lt_mask ltg ltg_split)
  ++ masked y (eq_mask ltg ltg_split)
  ≡ₚ y.
Proof.
  revert bmi ltg. induction y as [| v y IH]; intros [| b bmi] [| l ltg] Hb Hl;
    try discriminate; [reflexivity |].
  injection Hb as Hb. injection Hl as Hl. specialize (IH bmi ltg Hb Hl).
  destruct (four_way_split v _ _ _ _ _ IH) as (H1 & H2 & H3 & H4).
  unfold eq_mask, and_mask, gt_mask, le_mask, lt_mask in *.
  cbn [map zip_with masked].
  destruct (Rlt_dec bmi_split b), (Rle_dec b bmi_split),
           (Rlt_dec ltg_split l), (Rlt_dec l ltg_split),
           (Req_dec_T l ltg_split); try lra; cbn [andb masked];
    assumption.
Qed.

(** X15: on a table whose rows all have the two predictor columns and
    whose response has one entry per row, the three cells select
    pairwise disjoint parts of the response, and what they leave out is
    exactly the rows whose [ltg] equals [ltg_split]: the three
    selections and those rows together are a rearrangement of the
    response. *)
Theorem regions_partition (data : list (list R)) (y : list R) :
  (∀ row, row ∈ data → (8 < length row)%nat) →
  length y = length data →
  ∃ bmi ltg high low left,
    predictors data = Ok (bmi, ltg) ∧
    region_high_bmi bmi_split ltg_split data y = Ok high ∧
    region_low_bmi bmi_split ltg_split data y = Ok low ∧
    region_low_ltg ltg_split data y = Ok left ∧
    high ++ low ++ left ++ masked y (eq_mask ltg ltg_split) ≡ₚ y.
Proof.
  intros Hrows Hy.
  destruct (column_Ok data 2) as (bmi & Hbmi & Hlb);
    [intros row Hr; specialize (Hrows row Hr); lia |].
  destruct (column_Ok data 8) as (ltg & Hltg & Hll);
    [intros row Hr; specialize (Hrows row Hr); lia |].
  assert (Hpred : predictors data = Ok (bmi, ltg)).
  { unfold predictors. rewrite Hbmi, Hltg. reflexivity. }
  exists bmi, ltg. do 3 eexists. split; [exact Hpred |].
  unfold region_high_bmi, region_low_bmi, region_low_ltg. rewrite Hpred.
  cbn [mbind result_bind]. unfold bool_index, and_mask, gt_mask, le_mask,
    lt_mask.
  rewrite !length_zip_with, !length_map.
  rewrite !decide_True by lia.
  repeat (split; [reflexivity |]).
  apply regions_cover; lia.
Qed.

End RegionFacts.

(** ** The labels of the review files *)

Section ReviewLabelFacts.

Lemma assign_prefix_zeros (k v n : nat) :
  assign_prefix k v (np_zeros n)
  = replicate (k `min` n) v ++ replicate (n - k) 0.
Proof.
  unfold assign_prefix, np_zeros.
  now rewrite length_replicate, drop_replicate.
Qed.

Lemma lookup_assign_prefix_zeros (k v n i : nat) :
  i < n →
  assign_prefix k v (np_zeros n) !! i = Some (if decide (i < k) then v else 0).
Proof.
  intros Hi. rewrite assign_prefix_zeros.
  destruct (decide (i < k)) as [Hk | Hk].
  - rewrite lookup_app_l by (rewrite length_replicate; lia).
    apply lookup_replicate_2. lia.
  - rewrite lookup_app_r by (rewrite length_replicate; lia).
    apply lookup_replicate_2. rewrite length_replicate. lia.
Qed.

Lemma filter_replicate_eq (m v w : nat) :
  length (filter (λ x, x = v) (replicate m w)) = if decide (w = v) then m else 0.
Proof.
  induction m as [| m IH]; cbn [replicate].
  - destruct (decide (w = v)); reflexivity.
  - rewrite filter_cons. destruct (decide (w = v)); cbn [length]; lia.
Qed.

Lemma max_list_append (l1 l2 : list nat) :
  max_list (l1 ++ l2) = max_list l1 `max` max_list l2.
Proof.
  induction l1 as [| x l1 IH]; [reflexivity |].
  cbn [app max_list_with]. rewrite IH. unfold Datatypes.id. lia.
Qed.

Lemma max_list_replicate (m v : nat) :
  max_list (replicate m v) = if decide (m = 0) then 0 else v.
Proof.
  induction m as [| m IH]; [reflexivity |].
  cbn [replicate max_list_with]. rewrite IH. unfold Datatypes.id.
  destruct (decide (m = 0)), (decide (S m = 0)); lia.
Qed.

(** X16: the label array has one entry per file and marks file [i] as
    positive exactly when [i < 12500].  Since the positive files come
    first in [fnames], every file gets the label of its directory if and
    only if the number of positive files is [min(12500, len(fnames))]. *)
Theorem make_y_train_labels (pos neg : list string) :
  let fnames := review_files pos neg in
  let y_train := make_y_train fnames in
  length y_train = length fnames ∧
  (∀ i, i < length fnames →
        y_train !! i = Some (if decide (i < n_positive) then 1 else 0)) ∧
  ((∀ i, i < length fnames → (y_train !! i = Some 1 ↔ i < length pos))
   ↔ n_positive `min` length fnames = length pos).
Proof.
  cbv zeta. unfold make_y_train. generalize n_positive as k. intros k.
  set (n := length (review_files pos neg)).
  assert (Hpos : length pos <= n).
  { unfold n, review_files. rewrite length_app. lia. }
  split; [| split].
  - rewrite assign_prefix_zeros, length_app, !length_replicate. lia.
  - intros i Hi. now apply lookup_assign_prefix_zeros.
  - split.
    + intros Hagree.
      destruct (decide (k `min` n = length pos)) as [| Hne]; [done |].
      exfalso.
      destruct (decide (k `min` n < length pos)) as [Hlt | Hge].
      * specialize (Hagree (k `min` n) ltac:(lia)).
        rewrite lookup_assign_prefix_zeros in Hagree by lia.
        destruct (decide (k `min` n < k)); [lia |].
        destruct Hagree as [_ Hback]. specialize (Hback Hlt). discriminate.
      * specialize (Hagree (length pos) ltac:(lia)).
        rewrite lookup_assign_prefix_zeros in Hagree by lia.
        destruct (decide (length pos < k)); [| lia].
        destruct Hagree as [Hfwd _]. specialize (Hfwd eq_refl). lia.
    + intros Hmin i Hi. rewrite lookup_assign_prefix_zeros by exact Hi.
      destruct (decide (i < k)); split; intros H; try lia; try done.
Qed.

(** X17: with more than 12500 files, the counts the notebook displays
    with [np.bincount(y_train)] are the number of files beyond the first
    12500, for label 0, and 12500, for label 1. *)
Theorem bincount_y_train (fnames : list string) :
  n_positive < length fnames →
  bincount (make_y_train fnames)
  = [length fnames - n_positive; n_positive].
Proof.
  unfold make_y_train. rewrite assign_prefix_zeros.
  assert (Hk : 0 < n_positive) by (unfold n_positive; lia).
  generalize dependent n_positive. intros k Hk Hn.
  replace (k `min` length fnames) with k by lia.
  set (m := length fnames - k). assert (Hm : 0 < m) by lia.
  assert (Hmax : max_list (replicate k 1 ++ replicate m 0) = 1).
  { rewrite max_list_append, !max_list_replicate.
    destruct (decide (k = 0)), (decide (m = 0)); lia. }
  unfold bincount.
  destruct (replicate k 1 ++ replicate m 0) as [| x l] eqn:Hl.
  { destruct k; [lia | discriminate]. }
  rewrite Hmax, <- Hl. cbn [seq map].
  rewrite !filter_app, !length_app, !filter_replicate_eq.
  rewrite (decide_False (P := 1 = 0)), (decide_True (P := 0 = 0)),
    (decide_True (P := 1 = 1)), (decide_False (P := 0 = 1)) by lia.
  now rewrite Nat.add_0_l, Nat.add_0_r.
Qed.

End ReviewLabelFacts.

(** ** Further properties of [batch_train] *)

Section BatchTrainMore.

Import BatchTrain.

Context {Est Batch Rng : Type}.
Variable clone_est : Est → Est.
Variable partial_fit_est : Est → Batch → list nat → list nat → Est * option exn.
Variable transform : list string → Batch.
Variable RandomState : nat → Rng.
Variable choice : Rng → list nat → nat → result (list nat * Rng).
Variable files : gmap string string.

(** Two runs of the loop on estimators in the same state go through the
    same steps, wherever the estimators live. *)
Lemma train_loop_same_state (iterations : nat) (c1 c2 : loc) (idx : list nat)
    (fnames : list string) (labels : list nat) (batchsize : nat) :
  ∀ (rng : Rng) (w1 w2 w1' w2' : world) (r1 r2 : result ()),
    heap w1 !! c1 = heap w2 !! c2 →
    train_loop partial_fit_est transform choice files iterations c1 rng
      idx fnames labels batchsize w1 = (r1, w1') →
    train_loop partial_fit_est transform choice files iterations c2 rng
      idx fnames labels batchsize w2 = (r2, w2') →
    r1 = r2 ∧ heap w1' !! c1 = heap w2' !! c2.
Proof.
  induction iterations as [| n IH];
    intros rng w1 w2 w1' w2' r1 r2 Hsame Hrun1 Hrun2.
  - injection Hrun1 as <- <-. injection Hrun2 as <- <-. auto.
  - cbn [train_loop] in Hrun1, Hrun2.
    unfold mbind, M_bind, lift in Hrun1, Hrun2.
    destruct (choice rng idx batchsize) as [[rnd_idx rng'] | e];
      [| injection Hrun1 as <- <-; injection Hrun2 as <- <-; auto].
    destruct (mapM (read_document files fnames) rnd_idx) as [documents | e];
      [| injection Hrun1 as <- <-; injection Hrun2 as <- <-; auto].
    destruct (take_labels labels rnd_idx) as [batch_labels | e];
      [| injection Hrun1 as <- <-; injection Hrun2 as <- <-; auto].
    unfold partial_fit in Hrun1, Hrun2. rewrite Hsame in Hrun1.
    destruct (heap w2 !! c2) as [est |] eqn:Hest.
    + destruct (partial_fit_est est (transform documents) batch_labels [0; 1])
        as [est' [e |]].
      * injection Hrun1 as <- <-. injection Hrun2 as <- <-.
        cbn [heap]. now rewrite !lookup_insert_eq.
      * eapply IH; [| exact Hrun1 | exact Hrun2].
        cbn [heap]. now rewrite !lookup_insert_eq.
    + injection Hrun1 as <- <-. injection Hrun2 as <- <-.
      split; [reflexivity | congruence].
Qed.

(** X12: the estimator [batch_train] returns depends on the one passed
    as [clf] only through what [clone] copies.  Two calls with the same
    files, labels and settings, on classifiers whose clones are equal,
    either raise the same exception or both return, and then the two
    returned estimators are in the same state, whatever else the two
    callers' classifiers and heaps hold. *)
Theorem batch_train_depends_on_clone_only (clf1 clf2 : loc) (est1 est2 : Est)
    (fnames : list string) (labels : list nat)
    (iterations batchsize random_seed : nat)
    (w1 w2 w1' w2' : world) (r1 r2 : result loc) :
  heap w1 !! clf1 = Some est1 → heap w2 !! clf2 = Some est2 →
  clone_est est1 = clone_est est2 →
  batch_train clone_est partial_fit_est transform RandomState choice files
    clf1 fnames labels iterations batchsize random_seed w1 = (r1, w1') →
  batch_train clone_est partial_fit_est transform RandomState choice files
    clf2 fnames labels iterations batchsize random_seed w2 = (r2, w2') →
  (∀ e, r1 = Raise e ↔ r2 = Raise e) ∧
  (∀ c1 c2, r1 = Ok c1 → r2 = Ok c2 → heap w1' !! c1 = heap w2' !! c2).
Proof.
  intros H1 H2 Hclone. unfold batch_train, mbind, M_bind, clone.
  rewrite H1, H2. intros Hrun1 Hrun2.
  set (c1 := fresh (dom (heap w1))) in *.
  set (c2 := fresh (dom (heap w2))) in *.
  match type of Hrun1 with
  | context [train_loop ?a ?b ?c ?d ?e ?f ?g ?h ?i ?j ?k ?w0] =>
      destruct (train_loop a b c d e f g h i j k w0) as [s1 v1] eqn:Hloop1
  end.
  match type of Hrun2 with
  | context [train_loop ?a ?b ?c ?d ?e ?f ?g ?h ?i ?j ?k ?w0] =>
      destruct (train_loop a b c d e f g h i j k w0) as [s2 v2] eqn:Hloop2
  end.
  assert (Hstate : s1 = s2 ∧ heap v1 !! c1 = heap v2 !! c2).
  { eapply train_loop_same_state; [| exact Hloop1 | exact Hloop2].
    cbn [heap]. now rewrite !lookup_insert_eq, Hclone. }
  destruct Hstate as [-> Hstate].
  destruct s2 as [[] | e].
  - injection Hrun1 as <- <-. injection Hrun2 as <- <-. split.
    + intros e. split; discriminate.
    + intros ? ? [= <-] [= <-]. exact Hstate.
  - injection Hrun1 as <- <-. injection Hrun2 as <- <-. split.
    + intros e'. reflexivity.
    + discriminate.
Qed.

Lemma batch_train_runs (clf : loc) (fnames : list string)
    (labels : list nat) (iterations batchsize random_seed : nat)
    (w : world) :
  (∀ rng idx size, idx ≠ [] →
     ∃ rnd_idx rng', choice rng idx size = Ok (rnd_idx, rng') ∧
                     ∀ i, i ∈ rnd_idx → i ∈ idx) →
  (∀ est X y classes, (partial_fit_est est X y classes).2 = None) →
  is_Some (heap w !! clf) → labels ≠ [] →
  length labels <= length fnames →
  (∀ name, name ∈ fnames → is_Some (files !! name)) →
  ∃ c w',
    batch_train clone_est partial_fit_est transform RandomState choice files
      clf fnames labels iterations batchsize random_seed w = (Ok c, w').
Proof.
  intros Hchoice Hfit [est Hclf] Hlabels Hlen Hfiles.
  unfold batch_train, mbind, M_bind, clone. rewrite Hclf.
  set (c := fresh (dom (heap w))).
  set (idx := seq 0 (length labels)).
  assert (Hidx : idx ≠ []).
  { unfold idx. destruct labels; [done | discriminate]. }
  assert (Hloop : ∀ n rng w0, is_Some (heap w0 !! c) →
            ∃ w1, train_loop partial_fit_est transform choice files n c rng
                    idx fnames labels batchsize w0 = (Ok (), w1)).
  { induction n as [| n IH]; intros rng w0 Hc; [now eexists |].
    cbn [train_loop]. unfold mbind, M_bind, lift.
    destruct (Hchoice rng idx batchsize Hidx) as (rnd_idx & rng' & -> & Hin).
    assert (Hrange : ∀ i, i ∈ rnd_idx → (i < length labels)%nat).
    { intros i Hi. apply Hin, elem_of_seq in Hi. lia. }
    destruct (mapM_result_is_Ok (read_document files fnames) rnd_idx)
      as [documents ->].
    { intros i Hi. unfold read_document.
      destruct (lookup_lt_is_Some_2 fnames i) as [name Hname];
        [specialize (Hrange i Hi); lia |].
      rewrite Hname.
      destruct (Hfiles name) as [text ->];
        [eapply list_elem_of_lookup_2; eauto | now eexists]. }
    destruct (mapM_result_is_Ok
                (λ i, match labels !! i with
                      | Some l => Ok l
                      | None => Raise IndexError
                      end) rnd_idx) as [batch_labels Hbl].
    { intros i Hi.
      destruct (lookup_lt_is_Some_2 labels i) as [l ->]; [auto | now eexists]. }
    unfold take_labels. rewrite Hbl.
    unfold partial_fit. destruct Hc as [est0 ->].
    specialize (Hfit est0 (transform documents) batch_labels [0; 1]).
    destruct (partial_fit_est est0 (transform documents) batch_labels [0; 1])
      as [est' err]. cbn [snd] in Hfit. subst err.
    apply IH. cbn [heap]. rewrite lookup_insert_eq. eauto. }
  destruct (Hloop iterations (RandomState random_seed)
              (mkWorld (<[c := clone_est est]> (heap w))
                       (trace w ++ [EvClone clf c]))) as [w1 ->].
  { cbn [heap]. rewrite lookup_insert_eq. eauto. }
  now exists c, w1.
Qed.


(** X18: the call of the notebook, [batch_train(clf=sgd, fnames=fnames,
    labels=y_train)] with [y_train] built from [fnames] and the default
    settings, returns when there is at least one file, all files can be
    read and the library calls behave; it returns a new estimator that
    received 25 calls of [partial_fit], and the estimator that was passed
    in is still in its old state. *)
Theorem batch_train_notebook_call (sgd : loc) (fnames : list string)
    (w : world) :
  (∀ rng idx size, idx ≠ [] →
     ∃ rnd_idx rng', choice rng idx size = Ok (rnd_idx, rng') ∧
                     ∀ i, i ∈ rnd_idx → i ∈ idx) →
  (∀ est X y classes, (partial_fit_est est X y classes).2 = None) →
  is_Some (heap w !! sgd) → fnames ≠ [] →
  (∀ name, name ∈ fnames → is_Some (files !! name)) →
  ∃ c w',
    batch_train_default clone_est partial_fit_est transform RandomState
      choice files sgd fnames (make_y_train fnames) w = (Ok c, w') ∧
    c ≠ sgd ∧ heap w' !! sgd = heap w !! sgd ∧
    trace w' = trace w ++ EvClone sgd c :: repeat (EvPartialFit c) 25.
Proof.
  intros Hchoice Hfit Hsgd Hne Hfiles. unfold batch_train_default.
  assert (Hlen : length (make_y_train fnames) = length fnames).
  { unfold make_y_train. rewrite assign_prefix_zeros, length_app,
      !length_replicate. lia. }
  destruct (batch_train_runs sgd fnames (make_y_train fnames) 25 1000 1 w)
    as (c & w' & Hrun); try assumption.
  - intros Hnil. rewrite Hnil in Hlen. destruct fnames; [done | discriminate].
  - lia.
  - exists c, w'. split; [exact Hrun |].
    apply batch_train_effect in Hrun as (_ & Hclf & _ & Hret).
    destruct (Hret c eq_refl) as (Hc & _ & _ & Htrace). auto.
Qed.

End BatchTrainMore.

(** ** Instances of the further properties *)

Section MoreExamples.

Import Titanic BatchTrain BatchTrainExample MoreData.

Local Open Scope R_scope.

Lemma info_gain_raises_witness :
  info_gain mixed_X [survived] "f" = Raise KeyError ∧
  ((KeyError = KeyError ∧
      (columns mixed_X !! "f" = None ∨
       ∃ col, columns mixed_X !! "f" = Some col ∧
              (length [survived] < length col)%nat)) ∨
   (KeyError = ZeroDivisionError ∧ nrows mixed_X = 0%nat ∧
      ∃ col, columns mixed_X !! "f" = Some col ∧ col ≠ [])).
Proof.
  assert (H1 : info_gain mixed_X [survived] "f" = Raise KeyError)
    by reflexivity.
  exact (conj H1 (info_gain_raises mixed_X [survived] "f" KeyError H1)).
Defined.

Lemma info_gain_reads_prefix_of_y_witness :
  columns mixed_X !! "f" = Some ["a"; "a"] ∧
  take (length ["a"; "a"]) mixed_y
  = take (length ["a"; "a"]) (mixed_y ++ [died; survived]) ∧
  info_gain mixed_X mixed_y "f"
  = info_gain mixed_X (mixed_y ++ [died; survived]) "f".
Proof.
  assert (H1 : columns mixed_X !! "f" = Some ["a"; "a"]) by reflexivity.
  assert (H2 : take (length ["a"; "a"]) mixed_y
               = take (length ["a"; "a"]) (mixed_y ++ [died; survived]))
    by reflexivity.
  exact (conj H1 (conj H2
    (info_gain_reads_prefix_of_y mixed_X mixed_y _ "f" _ H1 H2))).
Defined.

Lemma info_gain_constant_feature_witness :
  columns mixed_X !! "f" = Some ["a"; "a"] ∧
  length ["a"; "a"] = nrows mixed_X ∧ length mixed_y = nrows mixed_X ∧
  (0 < nrows mixed_X)%nat ∧ Forall (λ d, d = "a") ["a"; "a"] ∧
  info_gain mixed_X mixed_y "f" = Ok (label_entropy None mixed_y).
Proof.
  assert (H1 : columns mixed_X !! "f" = Some ["a"; "a"]) by reflexivity.
  assert (H2 : length ["a"; "a"] = nrows mixed_X) by reflexivity.
  assert (H3 : length mixed_y = nrows mixed_X) by reflexivity.
  assert (H4 : (0 < nrows mixed_X)%nat) by (simpl; lia).
  assert (H5 : Forall (λ d, d = "a") ["a"; "a"]) by (repeat constructor).
  exact (conj H1 (conj H2 (conj H3 (conj H4 (conj H5
    (info_gain_constant_feature mixed_X mixed_y "f" _ "a" H1 H2 H3 H4 H5)))))).
Defined.

Lemma info_gain_zero_iff_pure_witness :
  columns pure_X !! "g" = Some ["u"; "u"; "w"; "w"] ∧
  length ["u"; "u"; "w"; "w"] = nrows pure_X ∧
  length pure_y = nrows pure_X ∧ (0 < nrows pure_X)%nat ∧
  (info_gain pure_X pure_y "g" = Ok 0 ↔
   ∀ x a b, a ∈ rows_with x ["u"; "u"; "w"; "w"] pure_y →
            b ∈ rows_with x ["u"; "u"; "w"; "w"] pure_y → a = b).
Proof.
  assert (H1 : columns pure_X !! "g" = Some ["u"; "u"; "w"; "w"])
    by reflexivity.
  assert (H2 : length ["u"; "u"; "w"; "w"] = nrows pure_X) by reflexivity.
  assert (H3 : length pure_y = nrows pure_X) by reflexivity.
  assert (H4 : (0 < nrows pure_X)%nat) by (simpl; lia).
  exact (conj H1 (conj H2 (conj H3 (conj H4
    (info_gain_zero_iff_pure pure_X pure_y "g" _ H1 H2 H3 H4))))).
Defined.








Lemma feature_ranking_sorted_witness :
  length two_importances = length two_columns ∧
  ∃ out, feature_ranking two_columns two_importances = Ok out ∧
         (λ t, t.1.1) <$> out = seq 1 (length two_columns) ∧
         (λ t, (t.1.2, t.2)) <$> out ≡ₚ zip two_columns two_importances ∧
         Sorted (λ a b, b <= a) ((λ t, t.2) <$> out).
Proof.
  assert (H1 : length two_importances = length two_columns) by reflexivity.
  exact (conj H1 (feature_ranking_sorted two_columns two_importances H1)).
Defined.

Lemma small_data_rows :
  ∀ row, row ∈ small_data → (8 < length row)%nat.
Proof.
  intros row Hin. unfold small_data in Hin.
  repeat (apply elem_of_cons in Hin as [-> | Hin]; [simpl; lia |]).
  inversion Hin.
Qed.

Lemma regions_partition_witness :
  (∀ row, row ∈ small_data → (8 < length row)%nat) ∧
  length small_y = length small_data ∧
  ∃ bmi ltg high low left,
    predictors small_data = Ok (bmi, ltg) ∧
    region_high_bmi (-3 / 100) (-1 / 100) small_data small_y = Ok high ∧
    region_low_bmi (-3 / 100) (-1 / 100) small_data small_y = Ok low ∧
    region_low_ltg (-1 / 100) small_data small_y = Ok left ∧
    high ++ low ++ left ++ masked small_y (eq_mask ltg (-1 / 100))
    ≡ₚ small_y.
Proof.
  assert (H2 : length small_y = length small_data) by reflexivity.
  exact (conj small_data_rows (conj H2
    (regions_partition (-3 / 100) (-1 / 100) small_data small_y
       small_data_rows H2))).
Defined.

Lemma many_files_length : (n_positive < length many_files)%nat.
Proof. unfold many_files, n_positive. rewrite length_replicate. lia. Qed.

Lemma bincount_y_train_witness :
  (n_positive < length many_files)%nat ∧
  bincount (make_y_train many_files)
  = [(length many_files - n_positive)%nat; n_positive].
Proof.
  exact (conj many_files_length (bincount_y_train many_files many_files_length)).
Defined.

End MoreExamples.

Section MoreBatchTrainExamples.

Import BatchTrain BatchTrainExample MoreData.

Lemma other_run_value :
  other_run = (Ok 6%positive,
               mkWorld {[ other_sgd := 9; 2%positive := 4; 6%positive := 3 ]}
                       [EvPartialFit other_sgd; EvClone other_sgd 6%positive;
                        EvPartialFit 6%positive; EvPartialFit 6%positive;
                        EvPartialFit 6%positive]).
Proof. vm_compute. reflexivity. Qed.

Lemma batch_train_depends_on_clone_only_witness :
  heap w0 !! sgd = Some 7 ∧ heap other_w0 !! other_sgd = Some 9 ∧
  clone_est 7 = clone_est 9 ∧
  ({[ sgd := 7; 2%positive := 3 ]} : gmap loc nat) !! 2%positive
  = ({[ other_sgd := 9; 2%positive := 4; 6%positive := 3 ]} : gmap loc nat)
      !! 6%positive.
Proof.
  assert (H1 : heap w0 !! sgd = Some 7) by reflexivity.
  assert (H2 : heap other_w0 !! other_sgd = Some 9) by reflexivity.
  assert (H3 : clone_est 7 = clone_est 9) by reflexivity.
  exact (conj H1 (conj H2 (conj H3
    (proj2 (batch_train_depends_on_clone_only clone_est partial_fit_est
              transform RandomState choice files sgd other_sgd 7 9 fnames
              labels 3 2 1 w0 other_w0 _ _ _ _ H1 H2 H3 run_value
              other_run_value)
       2%positive 6%positive eq_refl eq_refl)))).
Defined.

Lemma choice_in_range (rng : nat) (idx : list nat) (size : nat) :
  idx ≠ [] →
  ∃ rnd_idx rng', choice rng idx size = Ok (rnd_idx, rng') ∧
                  ∀ i, i ∈ rnd_idx → i ∈ idx.
Proof.
  intros _. exists (take size idx), (S rng). split; [reflexivity |].
  intros i Hi. apply list_elem_of_lookup in Hi as [k Hk].
  apply lookup_take_Some in Hk as [Hk _].
  eapply list_elem_of_lookup_2. exact Hk.
Qed.

Lemma partial_fit_est_succeeds (est : nat) (X : list string)
    (y classes : list nat) :
  (partial_fit_est est X y classes).2 = None.
Proof. reflexivity. Qed.

Lemma files_exist (name : string) :
  name ∈ fnames → is_Some (files !! name).
Proof.
  intros Hin. unfold fnames in Hin.
  repeat (apply elem_of_cons in Hin as [-> | Hin]; [now eexists |]).
  inversion Hin.
Qed.

Lemma sgd_exists : is_Some (heap w0 !! sgd).
Proof. now eexists. Qed.


Lemma batch_train_notebook_call_witness :
  is_Some (heap w0 !! sgd) ∧ fnames ≠ [] ∧
  ∃ c w',
    batch_train_default clone_est partial_fit_est transform RandomState
      choice files sgd fnames (make_y_train fnames) w0 = (Ok c, w') ∧
    c ≠ sgd ∧ heap w' !! sgd = heap w0 !! sgd ∧
    trace w' = trace w0 ++ EvClone sgd c :: repeat (EvPartialFit c) 25.
Proof.
  assert (H2 : fnames ≠ []) by discriminate.
  exact (conj sgd_exists (conj H2
    (batch_train_notebook_call clone_est partial_fit_est transform
       RandomState choice files sgd fnames w0 choice_in_range
       partial_fit_est_succeeds sgd_exists H2 files_exist))).
Defined.

End MoreBatchTrainExamples.

(** ** Further properties of the tree builder *)

Section TreeBuilderMore.

Context {V L : Type} `{EqDecision V, EqDecision L}.

Variable gain : DataFrame V → list L → string → result R.

Lemma most_common_elem (all rest : list L) (best : L) :
  most_common all rest best = best ∨ most_common all rest best ∈ rest.
Proof.
  revert best. induction rest as [| c rest IH]; intros best; cbn [most_common].
  - now left.
  - destruct (decide (count_class best all < count_class c all)).
    + destruct (IH c) as [-> | Hin]; right;
        auto using list_elem_of_here, list_elem_of_further.
    + destruct (IH best) as [-> | Hin]; [now left | right].
      now apply list_elem_of_further.
Qed.

(** The label [most_common] returns occurs at least as often as any
    label of the subset. *)
Lemma most_common_max (all rest : list L) (best : L) :
  ∀ c, c = best ∨ c ∈ rest →
       count_class c all <= count_class (most_common all rest best) all.
Proof.
  revert best. induction rest as [| d rest IH]; intros best c Hc;
    cbn [most_common].
  - destruct Hc as [-> | Hc]; [lia | inversion Hc].
  - destruct (decide (count_class best all < count_class d all)) as [Hlt | Hge].
    + destruct Hc as [-> | [-> | Hc]%elem_of_cons].
      * etransitivity; [| apply (IH d d); now left]. lia.
      * apply IH. now left.
      * apply IH. now right.
    + destruct Hc as [-> | [-> | Hc]%elem_of_cons].
      * apply IH. now left.
      * etransitivity; [| apply (IH best best); now left]. lia.
      * apply IH. now right.
Qed.

Lemma ID3_rec_Leaf (fuel : nat) (X : DataFrame V) (y : list L)
    (feats : list string) (l : L) :
  ID3_rec gain fuel X y feats = Ok (Leaf l) →
  l ∈ y ∧ ((∀ c, c ∈ y → c = l) ∨
           (feats = [] ∧ ∀ c, c ∈ y → count_class c y <= count_class l y)).
Proof.
  intros Hrun. destruct y as [| l0 y']; [destruct fuel; discriminate |].
  destruct (decide (Forall (λ c, c = l0) (l0 :: y'))) as [Hall | Hmixed].
  { rewrite ID3_rec_pure in Hrun by assumption. injection Hrun as <-.
    split; [apply list_elem_of_here |]. left.
    now apply Forall_forall. }
  destruct feats as [| f0 feats'].
  { rewrite ID3_rec_no_features in Hrun by assumption.
    assert (Hl : most_common (l0 :: y') (l0 :: y') l0 = l) by congruence.
    clear Hrun. rewrite <- Hl. clear Hl.
    split.
    - destruct (most_common_elem (l0 :: y') (l0 :: y') l0) as [Heq | Hin];
        [rewrite Heq; apply list_elem_of_here | exact Hin].
    - right. split; [reflexivity |]. intros c Hc.
      apply most_common_max. now right. }
  destruct fuel as [| fuel'].
  { cbn [ID3_rec] in Hrun. rewrite decide_False in Hrun by assumption.
    discriminate. }
  rewrite ID3_rec_split in Hrun by assumption.
  destruct (choose_feature gain X (l0 :: y') (f0 :: feats')); [| discriminate].
  cbn [mbind result_bind] in Hrun.
  destruct (columns X !! _); [| discriminate].
  cbn [mbind result_bind] in Hrun.
  match type of Hrun with
  | context [mapM ?g ?vs] => destruct (mapM g vs)
  end; discriminate.
Qed.

Lemma subset_labels (X Xv : DataFrame V) (y yv : list L) (f : string) (v : V) :
  subset X y f v = Ok (Xv, yv) → ∀ l, l ∈ yv → l ∈ y.
Proof.
  unfold subset. destruct (columns X !! f) as [col |]; [| discriminate].
  intros [= <- <-] l Hl. now apply rows_with_elem in Hl as [Hl _].
Qed.

Lemma ID3_rec_leaves (fuel : nat) :
  ∀ (X : DataFrame V) (y : list L) (feats : list string) (t : tree V L),
    ID3_rec gain fuel X y feats = Ok t → ∀ l, l ∈ leaves t → l ∈ y.
Proof.
  induction fuel as [| fuel' IH]; intros X y feats [l0 | f children] Hrun l Hl.
  - apply ID3_rec_Leaf in Hrun as [Hin _].
    cbn [leaves] in Hl. apply list_elem_of_singleton in Hl as ->. exact Hin.
  - apply ID3_rec_Internal in Hrun as (_ & fuel'' & Hfuel & _). discriminate.
  - apply ID3_rec_Leaf in Hrun as [Hin _].
    cbn [leaves] in Hl. apply list_elem_of_singleton in Hl as ->. exact Hin.
  - apply ID3_rec_Internal in Hrun as (_ & fuel'' & [= <-] & Hch).
    cbn [leaves] in Hl.
    apply list_elem_of_In, in_flat_map in Hl as ([v c] & Hvc & Hl).
    rewrite Forall_forall in Hch.
    destruct (Hch (v, c)) as (Xv & yv & Hsub & Hc); [now apply list_elem_of_In |].
    eapply subset_labels; [exact Hsub |].
    eapply IH; [exact Hc | now apply list_elem_of_In].
Qed.

(** X19: whatever gain function drives it, a tree that [ID3] returns
    predicts only labels that occur in the training labels, and none of
    its root-to-leaf paths is longer than the list of candidate
    features. *)
Theorem ID3_tree_shape (X : DataFrame V) (y : list L) (feats : list string)
    (t : tree V L) :
  ID3 gain X y feats = Ok t →
  (∀ l, l ∈ leaves t → l ∈ y) ∧
  (∀ p, p ∈ paths t → length p <= length feats).
Proof.
  intros Hrun. split.
  - now apply (ID3_rec_leaves (length feats) X y feats t).
  - intros p Hp. apply ID3_rec_paths in Hrun. rewrite Forall_forall in Hrun.
    destruct (Hrun p Hp) as [Hnd Hsub].
    apply submseteq_length, NoDup_submseteq; assumption.
Qed.

(** X20: a tree that consists of a single leaf was returned for one of
    two reasons: every training label equals the leaf's label, or no
    candidate feature was supplied and no label occurs more often in
    the training labels than the leaf's. *)
Theorem ID3_single_leaf (X : DataFrame V) (y : list L) (feats : list string)
    (l : L) :
  ID3 gain X y feats = Ok (Leaf l) →
  l ∈ y ∧ ((∀ c, c ∈ y → c = l) ∨
           (feats = [] ∧ ∀ c, c ∈ y → count_class c y <= count_class l y)).
Proof. apply ID3_rec_Leaf. Qed.

End TreeBuilderMore.

Section TreeBuilderTotal.

Context {V L : Type} `{EqDecision V, EqDecision L}.

(** X21: with [info_gain] as its criterion, [ID3] returns a tree,
    raising nothing, on every non-empty well-formed dataset whose
    candidate features are columns of the frame. *)
Theorem ID3_returns_tree (X : DataFrame V) (y : list L)
    (feats : list string) :
  well_formed X y → y ≠ [] →
  (∀ f, f ∈ feats → is_Some (columns X !! f)) →
  ∃ t, ID3 info_gain X y feats = Ok t.
Proof. apply ID3_info_gain_total. Qed.

End TreeBuilderTotal.

Section TreeBuilderMoreExamples.

Import Titanic.

Lemma ID3_majority_leaf : ID3 info_gain S_X S_y [] = Ok (Leaf died).
Proof.
  unfold ID3, S_y. rewrite ID3_rec_no_features; [reflexivity |].
  intros Hall. inversion Hall as [| ? ? _ Hrest].
  inversion Hrest. discriminate.
Qed.

Lemma mixed_well_formed : well_formed mixed_X' mixed_y.
Proof.
  split; [| reflexivity]. intros f col Hcol. unfold mixed_X' in Hcol.
  cbn [columns nrows] in *.
  apply lookup_insert_Some in Hcol as [[_ <-] | [_ Hcol]]; [reflexivity |].
  apply lookup_singleton_Some in Hcol as [_ <-]. reflexivity.
Qed.

Lemma ID3_tree_shape_witness :
  ID3 info_gain mixed_X' mixed_y ["f"; "g"] = Ok mixed_tree ∧
  (∀ l, l ∈ leaves mixed_tree → l ∈ mixed_y) ∧
  (∀ p, p ∈ paths mixed_tree → length p <= length ["f"; "g"]).
Proof.
  exact (conj ID3_mixed
           (ID3_tree_shape info_gain mixed_X' mixed_y ["f"; "g"] mixed_tree
              ID3_mixed)).
Defined.

Lemma ID3_single_leaf_witness :
  ID3 info_gain S_X S_y [] = Ok (Leaf died) ∧
  died ∈ S_y ∧
  ((∀ c, c ∈ S_y → c = died) ∨
   (@nil string = [] ∧
    ∀ c, c ∈ S_y → count_class c S_y <= count_class died S_y)).
Proof.
  exact (conj ID3_majority_leaf
           (ID3_single_leaf info_gain S_X S_y [] died ID3_majority_leaf)).
Defined.

Lemma ID3_returns_tree_witness :
  well_formed mixed_X' mixed_y ∧ mixed_y ≠ [] ∧
  (∀ f, f ∈ ["f"; "g"] → is_Some (columns mixed_X' !! f)) ∧
  ∃ t, ID3 info_gain mixed_X' mixed_y ["f"; "g"] = Ok t.
Proof.
  assert (H2 : mixed_y ≠ []) by discriminate.
  assert (H3 : ∀ f, f ∈ ["f"; "g"] → is_Some (columns mixed_X' !! f)).
  { intros f Hf. apply elem_of_cons in Hf as [-> | Hf]; [now eexists |].
    apply list_elem_of_singleton in Hf as ->. now eexists. }
  exact (conj mixed_well_formed (conj H2 (conj H3
    (ID3_returns_tree mixed_X' mixed_y ["f"; "g"] mixed_well_formed H2 H3)))).
Defined.

End TreeBuilderMoreExamples.
